(** * Distributed batch inference over a Delta Lake table

    A shallow embedding of the notebook
    [tutorials/delta_lake/2-distributed-batch-inference.ipynb]: the
    dataframe pipeline it builds (limit, filter, repartition, column
    derivations, two batched inference stages, projection, Parquet sink)
    and the batched transform [ClassifyImage] it defines.

    Network fetch, image codec, pixel resampling and the neural network are
    external collaborators; they appear as [Section] variables.  The
    dataframe engine is this repository's own library, whose sources are
    outside the notebook; its operations are modelled from the
    specification and marked as such.  Runner selection and credentials
    decide where the job runs and how storage is reached; they do not
    enter the tables and are left out. *)

From Stdlib Require Import String Ascii ZArith Lia Bool Arith List Permutation.
From Stdlib Require Import Strings.Byte DecimalString.
Import ListNotations.
Open Scope string_scope.
Open Scope list_scope.

Set Implicit Arguments.

(* ================================================================== *)
(** ** Errors and results *)

(** The Python exceptions the modelled code can raise. *)
Inductive error : Type :=
| KeyError (column : string)
| TypeError
| IndexError
| ValueError
| RuntimeError
| IOError (url : string)
| FileNotFoundError (path : string).

Inductive res (A : Type) : Type :=
| Ok (a : A)
| Err (e : error).
Arguments Ok {A} a.
Arguments Err {A} e.

Definition res_bind {A B} (m : res A) (k : A -> res B) : res B :=
  match m with
  | Ok a => k a
  | Err e => Err e
  end.

Declare Scope res_scope.
Delimit Scope res_scope with res.
Notation "x <- m ;; k" := (res_bind m (fun x => k))
  (at level 61, m at next level, right associativity) : res_scope.

Fixpoint mapM_res {A B} (f : A -> res B) (l : list A) : res (list B) :=
  match l with
  | [] => Ok []
  | a :: l' =>
      res_bind (f a) (fun b =>
      res_bind (mapM_res f l') (fun bs => Ok (b :: bs)))
  end.

Definition of_option {A} (e : error) (o : option A) : res A :=
  match o with
  | Some a => Ok a
  | None => Err e
  end.

(* ================================================================== *)
(** ** Values *)

(** The [object] column: a list of structs, all of whose leaves are text,
    as the re-read table prints its type. *)
Record bndbox : Type := { xmax : string; xmin : string; ymax : string; ymin : string }.

Record object_struct : Type :=
  { box : bndbox; difficult : string; name : string; pose : string; truncated : string }.

(** A dense array: numpy's [shape] and the elements in row-major order. *)
Record tensor : Type := { shape : list nat; data : list Z }.

Inductive value : Type :=
| VStr (s : string)
| VInt (n : Z)
| VBool (b : bool)
| VBytes (b : list byte)
| VList (l : list object_struct)
| VImage (t : tensor).

(** A column of one partition (daft.Series). *)
Definition series : Type := list value.

Fixpoint shape_eqb (a b : list nat) : bool :=
  match a, b with
  | [], [] => true
  | x :: a', y :: b' => Nat.eqb x y && shape_eqb a' b'
  | _, _ => false
  end.

(* ================================================================== *)
(** ** The batched transform [ClassifyImage] *)

Module ClassifyImage.
Section Torch.

(** torch / torchvision: the element type of network outputs with its
    order, float tensors, softmax over dimension 0, and the pretrained
    weights with their preprocessing and label list. *)
Variable score : Type.
Variable score_ltb : score -> score -> bool.
Variable ftensor : Type.
Variable softmax0 : list (list score) -> list (list score).

Record Weights : Type :=
  { transforms : tensor -> ftensor;
    meta_categories : list string }.

Variable resnet50 : Weights -> ftensor -> list (list score).

(** The fields [__init__] sets on [self]. *)
Record t : Type :=
  { model : ftensor -> list (list score);
    preprocess : tensor -> ftensor;
    category_map : list string }.

Definition __init__ (weights : Weights) : t :=
  {| model := resnet50 weights;
     preprocess := transforms weights;
     category_map := meta_categories weights |}.

(** [images.cast(tensor(uint8, shape)).to_pylist()]: every element must
    be an array of exactly the requested shape, or the cast raises;
    elements become uint8. *)
Definition cast_uint8_tensor (shp : list nat) (v : value) : res tensor :=
  match v with
  | VImage a =>
      if shape_eqb (shape a) shp
      then Ok {| shape := shp; data := map (fun z => Z.modulo z 256) (data a) |}
      else Err ValueError
  | _ => Err ValueError
  end.

(** [np.array(data)] for arrays of one common shape [shp]. *)
Definition np_array (shp : list nat) (arrays : list tensor) : tensor :=
  match arrays with
  | [] => {| shape := [0]; data := [] |}
  | _ => {| shape := length arrays :: shp; data := concat (map data arrays) |}
  end.

(** [.permute((0, 3, 1, 2))]: NHWC to NCHW; raises unless the array has
    four dimensions. *)
Definition permute_0_3_1_2 (x : tensor) : res tensor :=
  match shape x with
  | [n; h; w; c] =>
      Ok {| shape := [n; c; h; w];
            data :=
              flat_map (fun i =>
              flat_map (fun k =>
              flat_map (fun y =>
              map (fun j => nth (((i * h + y) * w + j) * c + k) (data x) 0%Z)
                  (seq 0 w)) (seq 0 h)) (seq 0 c)) (seq 0 n) |}
  | _ => Err RuntimeError
  end.

(** [argmax] of one row: the index of the first maximal entry. *)
Fixpoint argmax_from (best : score) (besti i : nat) (row : list score) : nat :=
  match row with
  | [] => besti
  | x :: row' =>
      if score_ltb best x
      then argmax_from x i (S i) row'
      else argmax_from best besti (S i) row'
  end.

Definition argmax_row (row : list score) : res nat :=
  match row with
  | [] => Err IndexError
  | x :: row' => Ok (argmax_from x 0 1 row')
  end.

(** [prediction.argmax(1)] *)
Definition argmax1 (prediction : list (list score)) : res (list nat) :=
  mapM_res argmax_row prediction.

(** [prediction[:, class_ids]] *)
Definition index_columns (prediction : list (list score)) (class_ids : list nat)
  : res (list (list score)) :=
  mapM_res (fun row =>
    mapM_res (fun j => of_option IndexError (nth_error row j)) class_ids)
    prediction.

Definition __call__ (self : t) (images : series) (shp : list nat) : res (list string) :=
  if Nat.eqb (length images) 0 then Ok []
  else
    (data <- mapM_res (cast_uint8_tensor shp) images ;;
     images_array <- permute_0_3_1_2 (np_array shp data) ;;
     let batch := preprocess self images_array in
     let prediction := softmax0 (model self batch) in
     class_ids <- argmax1 prediction ;;
     scores <- index_columns prediction class_ids ;;
     mapM_res (fun class_id =>
                 of_option IndexError (nth_error (category_map self) class_id))
              class_ids)%res.

(** [m] rows of [k] scores each. *)
Definition well_shaped (m k : nat) (y : list (list score)) : bool :=
  Nat.eqb (length y) m && forallb (fun row => Nat.eqb (length row) k) y.

End Torch.
End ClassifyImage.

(** [@daft.udf(return_dtype=daft.DataType.string())]: the list a transform
    returns becomes a text column. *)
Definition daft_udf_string (f : series -> list nat -> res (list string))
  : series -> list nat -> res series :=
  fun images shp => res_bind (f images shp) (fun labels => Ok (map VStr labels)).

(** A stand-in transform that labels every image ["cat"]. *)
Definition stub_classifier : series -> list nat -> res series :=
  daft_udf_string (fun images _ => Ok (repeat "cat" (length images))).

(** An array value of the given shape. *)
Definition is_tensor_of (shp : list nat) (v : value) : bool :=
  match v with
  | VImage a => shape_eqb (shape a) shp
  | _ => false
  end.

(* ================================================================== *)
(** ** Tables *)

(** Modelled from the spec: the table handle (the engine's [DataFrame] is
    declared outside the notebook): a sequence of rows with a schema of
    uniquely named columns, held in partitions.  A row maps column names
    to values. *)
Definition row : Type := list (string * value).
Definition partition : Type := list row.

Record DataFrame : Type :=
  { schema : list string;
    partitions : list partition }.

Definition rows (df : DataFrame) : list row := concat (partitions df).
Definition count_rows (df : DataFrame) : nat := length (rows df).

Fixpoint get (c : string) (r : row) : option value :=
  match r with
  | [] => None
  | (k, v) :: r' => if String.eqb k c then Some v else get c r'
  end.

Fixpoint set (c : string) (v : value) (r : row) : row :=
  match r with
  | [] => [(c, v)]
  | (k, x) :: r' => if String.eqb k c then (k, v) :: r' else (k, x) :: set c v r'
  end.

(** The values of one column over a partition. *)
Definition column (c : string) (p : partition) : res series :=
  mapM_res (fun r => of_option (KeyError c) (get c r)) p.

Definition has_column (sch : list string) (c : string) : bool :=
  existsb (String.eqb c) sch.

(* ================================================================== *)
(** ** Engine computations

    Evaluating a table can fail, and it invokes batched transforms.  An
    engine computation yields a result together with the log of every
    batch passed to a batched transform, kept also when the run fails. *)

Definition call : Type := (series * list nat)%type.
Definition M (A : Type) : Type := (res A * list call)%type.

Definition ret {A} (a : A) : M A := (Ok a, []).

Definition bind {A B} (m : M A) (k : A -> M B) : M B :=
  match m with
  | (Ok a, l) => let (r, l') := k a in (r, l ++ l')
  | (Err e, l) => (Err e, l)
  end.

Definition lift {A} (r : res A) : M A := (r, []).

Definition invoke (f : series -> list nat -> res series) (x : series) (shp : list nat)
  : M series := (f x shp, [(x, shp)]).

Declare Scope engine_scope.
Delimit Scope engine_scope with engine.
Notation "x <- m ;; k" := (bind m (fun x => k))
  (at level 61, m at next level, right associativity) : engine_scope.

Fixpoint mapM {A B} (f : A -> M B) (l : list A) : M (list B) :=
  match l with
  | [] => ret []
  | a :: l' => bind (f a) (fun b => bind (mapM f l') (fun bs => ret (b :: bs)))
  end.

(* ================================================================== *)
(** ** Expressions *)

(** Modelled from the spec: the engine's column expressions (declared
    outside the notebook), as far as the notebook builds them: columns,
    literals, [+], [==], [.list.lengths()], [.url.download()],
    [.image.decode()], [.image.resize(w, h)], [.apply(f)] and calls of a
    batched transform. *)
Inductive expr : Type :=
| col (c : string)
| lit (v : value)
| add (a b : expr)
| eq_ (a b : expr)
| list_lengths (e : expr)
| url_download (e : expr)
| image_decode (e : expr)
| image_resize (w h : nat) (e : expr)
| apply (f : value -> res value) (e : expr)
| udf (f : series -> list nat -> res series) (e : expr) (shp : list nat).

Fixpoint columns_of (e : expr) : list string :=
  match e with
  | col c => [c]
  | lit _ => []
  | add a b | eq_ a b => columns_of a ++ columns_of b
  | list_lengths e' | url_download e' | image_decode e'
  | image_resize _ _ e' | apply _ e' | udf _ e' _ => columns_of e'
  end.

Definition extend_schema (sch : list string) (c : string) : list string :=
  if has_column sch c then sch else sch ++ [c].

(** Columns are resolved against the schema when the plan is built. *)
Definition resolve_columns (sch : list string) (cols : list string) : res unit :=
  match find (fun c => negb (has_column sch c)) cols with
  | Some c => Err (KeyError c)
  | None => Ok tt
  end.

Definition resolve (sch : list string) (e : expr) : res unit :=
  resolve_columns sch (columns_of e).

Definition add_value (a b : value) : res value :=
  match a, b with
  | VStr x, VStr y => Ok (VStr (String.append x y))
  | VInt x, VInt y => Ok (VInt (x + y))
  | _, _ => Err TypeError
  end.

Definition eq_value (a b : value) : res value :=
  match a, b with
  | VStr x, VStr y => Ok (VBool (String.eqb x y))
  | VInt x, VInt y => Ok (VBool (Z.eqb x y))
  | VBool x, VBool y => Ok (VBool (Bool.eqb x y))
  | _, _ => Err TypeError
  end.

Definition list_length_value (a : value) : res value :=
  match a with
  | VList l => Ok (VInt (Z.of_nat (length l)))
  | _ => Err TypeError
  end.

Definition as_bool (a : value) : res bool :=
  match a with
  | VBool b => Ok b
  | _ => Err TypeError
  end.

Section Engine.

(** Object storage, the image codec and the pixel resampler. *)
Variable download : string -> res (list byte).
Variable decode : list byte -> res tensor.
Variable resample : nat -> nat -> tensor -> list Z.

Definition download_value (a : value) : res value :=
  match a with
  | VStr url => res_bind (download url) (fun b => Ok (VBytes b))
  | _ => Err TypeError
  end.

Definition decode_value (a : value) : res value :=
  match a with
  | VBytes b => res_bind (decode b) (fun t => Ok (VImage t))
  | _ => Err TypeError
  end.

(** Modelled from the spec: [Expression.image.resize(w, h)], the
    engine's image resize (its source is outside the notebook): the
    result has the fixed target height and width and the channels of its
    input. *)
Definition resize_value (w h : nat) (a : value) : res value :=
  match a with
  | VImage t =>
      match shape t with
      | [_; _; c] => Ok (VImage {| shape := [h; w; c]; data := resample w h t |})
      | _ => Err ValueError
      end
  | _ => Err TypeError
  end.

(** Modelled from the spec: evaluation of an expression over one
    partition (the engine's evaluator is outside the notebook): pure
    row-wise functions, and batched transforms called once per partition
    and returning one value per row. *)
Fixpoint eval (p : partition) (e : expr) : M series :=
  match e with
  | col c => lift (column c p)
  | lit v => ret (repeat v (length p))
  | add a b =>
      bind (eval p a) (fun x =>
      bind (eval p b) (fun y =>
      lift (mapM_res (fun uv => add_value (fst uv) (snd uv)) (combine x y))))
  | eq_ a b =>
      bind (eval p a) (fun x =>
      bind (eval p b) (fun y =>
      lift (mapM_res (fun uv => eq_value (fst uv) (snd uv)) (combine x y))))
  | list_lengths e' =>
      bind (eval p e') (fun x => lift (mapM_res list_length_value x))
  | url_download e' =>
      bind (eval p e') (fun x => lift (mapM_res download_value x))
  | image_decode e' =>
      bind (eval p e') (fun x => lift (mapM_res decode_value x))
  | image_resize w h e' =>
      bind (eval p e') (fun x => lift (mapM_res (resize_value w h) x))
  | apply f e' =>
      bind (eval p e') (fun x => lift (mapM_res f x))
  | udf f e' shp =>
      bind (eval p e') (fun x =>
      bind (invoke f x shp) (fun y =>
      if Nat.eqb (length y) (length p) then ret y else lift (Err ValueError)))
  end.

(** Modelled from the spec: [DataFrame.limit] (outside the notebook):
    the first [n] rows, in partition order. *)
Fixpoint limit_partitions (n : nat) (ps : list partition) : list partition :=
  match ps with
  | [] => []
  | p :: ps' => firstn n p :: limit_partitions (n - length p) ps'
  end.

(** Modelled from the spec: [DataFrame.limit] on a table handle; the
    schema is kept. *)
Definition limit (n : nat) (df : DataFrame) : DataFrame :=
  {| schema := schema df; partitions := limit_partitions n (partitions df) |}.

Definition keep (p : partition) (mask : list bool) : partition :=
  map fst (filter snd (combine p mask)).

(** Modelled from the spec: [DataFrame.where] (outside the notebook):
    keeps the rows on which the predicate holds. *)
Definition where_ (e : expr) (df : DataFrame) : M DataFrame :=
  (_ <- lift (resolve (schema df) e) ;;
   ps <- mapM (fun p =>
                 s <- eval p e ;;
                 mask <- lift (mapM_res as_bool s) ;;
                 ret (keep p mask)) (partitions df) ;;
   ret {| schema := schema df; partitions := ps |})%engine.

(** Modelled from the spec: [DataFrame.with_column] (outside the
    notebook): one additional column holding the derived value of every
    row; column names stay unique, so an existing name is overwritten. *)
Definition with_column (c : string) (e : expr) (df : DataFrame) : M DataFrame :=
  (_ <- lift (resolve (schema df) e) ;;
   ps <- mapM (fun p =>
                 s <- eval p e ;;
                 ret (map (fun rv => set c (snd rv) (fst rv)) (combine p s)))
              (partitions df) ;;
   ret {| schema := extend_schema (schema df) c; partitions := ps |})%engine.

Definition project_row (cols : list string) (r : row) : res row :=
  mapM_res (fun c => res_bind (of_option (KeyError c) (get c r))
                              (fun v => Ok (c, v))) cols.

(** Modelled from the spec: [DataFrame.select] (outside the notebook):
    projection onto the named columns, in the order given. *)
Definition select (cols : list string) (df : DataFrame) : M DataFrame :=
  (_ <- lift (resolve_columns (schema df) cols) ;;
   ps <- lift (mapM_res (mapM_res (project_row cols)) (partitions df)) ;;
   ret {| schema := cols; partitions := ps |})%engine.

(** Modelled from the spec: a partition is a contiguous subset of the
    rows (the engine's splitting is outside the notebook); here the
    blocks are of near-equal size. *)
Fixpoint split_even (A : Type) (k : nat) (l : list A) : list (list A) :=
  match k with
  | 0 => []
  | S k' =>
      let size := (length l + k') / k in
      firstn size l :: split_even k' (skipn size l)
  end.

(** Modelled from the spec: [DataFrame.into_partitions] (outside the
    notebook): a positive partition count; the same rows redistributed
    into that many units of work. *)
Definition into_partitions (k : nat) (df : DataFrame) : res DataFrame :=
  if Nat.eqb k 0 then Err ValueError
  else Ok {| schema := schema df; partitions := split_even k (rows df) |}.

End Engine.

(* ================================================================== *)
(** ** The Parquet sink and source *)

Record parquet_file : Type :=
  { path : string;
    file_schema : list string;
    file_rows : list row }.

Definition filesystem : Type := list parquet_file.

Definition string_of_nat (n : nat) : string :=
  NilEmpty.string_of_uint (Nat.to_uint n).

Definition file_path (root : string) (i : nat) : string :=
  String.append root (String.append "/" (String.append (string_of_nat i) ".parquet")).

(** A partition that holds at least one row. *)
Definition has_rows (p : partition) : bool :=
  match p with
  | [] => false
  | _ :: _ => true
  end.

(** Modelled from the spec: [DataFrame.write_parquet] (outside the
      notebook): on materialization one file is added under the output
      path for each partition that holds rows (none for an empty
      partition, so none at all for an empty table); the list of file
      paths written is returned. *)
Definition write_parquet (root : string) (df : DataFrame) (fs : filesystem)
  : list string * filesystem :=
  let parts := filter has_rows (partitions df) in
  let files :=
    map (fun ip => {| path := file_path root (fst ip);
                      file_schema := schema df;
                      file_rows := snd ip |})
        (combine (seq (length fs) (length parts)) parts) in
  (map path files, fs ++ files).

Definition under (root : string) (f : parquet_file) : bool :=
  String.prefix (String.append root "/") (path f).

(** Modelled from the spec: [daft.read_parquet] (outside the notebook):
      every file under the path is read, each independently, and their
      rows are returned as one table; without any file under the path
      the read raises. *)
Definition read_parquet (root : string) (fs : filesystem) : res DataFrame :=
  match filter (under root) fs with
  | [] => Err (FileNotFoundError root)
  | f :: files =>
      Ok {| schema := file_schema f;
            partitions := [concat (map file_rows (f :: files))] |}
  end.

(* ================================================================== *)
(** ** The notebook *)

Section Notebook.

Variable download : string -> res (list byte).
Variable decode : list byte -> res tensor.
Variable resample : nat -> nat -> tensor -> list Z.

(** The batched transform the inference stages call: the notebook's
    [ClassifyImage], or a stand-in with the same interface. *)
Variable classify : series -> list nat -> res series.

Definition NUM_ROWS : nat := 1000.

Definition images_prefix : string :=
  "s3://daft-public-datasets/imagenet/val-10k-sample-deltalake/images/".

Definition results_path : string := "my_results.parquet".

(** [lambda img: img.shape[2] == 3] *)
Definition channels_is_3 (img : value) : res value :=
  match img with
  | VImage t =>
      match nth_error (shape t) 2 with
      | Some c => Ok (VBool (Nat.eqb c 3))
      | None => Err IndexError
      end
  | _ => Err TypeError
  end.

(** [df[c].list.lengths() == 1] *)
Definition length_is_1 (c : string) : expr :=
  eq_ (list_lengths (col c)) (lit (VInt 1)).

Definition object_length_is_1 : expr := length_is_1 "object".

Definition image_url_expr : expr :=
  add (add (lit (VStr images_prefix)) (col "filename")) (lit (VStr ".jpeg")).

Definition projection : list string :=
  ["filename"; "image_url"; "object"; "predictions_lowres"; "predictions_highres"].

Local Open Scope engine_scope.

(** Cell "Retrieving data": prune the table that was read. *)
Definition prune (df : DataFrame) : M DataFrame :=
  let df := limit NUM_ROWS df in
  where_ download decode resample object_length_is_1 df.

(** Cell "Splitting the data into more partitions". *)
Definition split (df : DataFrame) : M DataFrame :=
  lift (into_partitions 16 df).

(** Cell "Retrieving the images and preprocessing". *)
Definition preprocess_images (df : DataFrame) : M DataFrame :=
  df <- with_column download decode resample "image_url" image_url_expr df ;;
  df <- with_column download decode resample "image"
          (image_decode (url_download (col "image_url"))) df ;;
  df <- with_column download decode resample "image_resized_small"
          (image_resize 32 32 (col "image")) df ;;
  with_column download decode resample "image_resized_large"
          (image_resize 256 256 (col "image")) df.

(** Cell "Running batch inference with a UDF", up to the projection. *)
Definition filter_channels (df : DataFrame) : M DataFrame :=
  where_ download decode resample (apply channels_is_3 (col "image")) df.

Definition infer (df : DataFrame) : M DataFrame :=
  df <- with_column download decode resample "predictions_lowres"
          (udf classify (col "image_resized_small") [32; 32; 3]) df ;;
  with_column download decode resample "predictions_highres"
          (udf classify (col "image_resized_large") [256; 256; 3]) df.

(** The table the inference stages consume. *)
Definition prepared (delta_table : DataFrame) : M DataFrame :=
  df <- prune delta_table ;;
  df <- split df ;;
  df <- preprocess_images df ;;
  filter_channels df.

(** The table every derivation and filter has been applied to, before
    the projection. *)
Definition intermediate (delta_table : DataFrame) : M DataFrame :=
  df <- prepared delta_table ;;
  infer df.

(** The table handed to the sink. *)
Definition results (delta_table : DataFrame) : M DataFrame :=
  df <- intermediate delta_table ;;
  select projection df.

(** The whole job: the paths written and the file system afterwards. *)
Definition run (delta_table : DataFrame) (fs : filesystem)
  : M (list string * filesystem) :=
  df <- results delta_table ;;
  ret (write_parquet results_path df fs).

(** Cell "Now, take a look at your handiwork!" *)
Definition run_and_read (delta_table : DataFrame) (fs : filesystem) : M DataFrame :=
  out <- run delta_table fs ;;
  lift (read_parquet results_path (snd out)).

End Notebook.

(** The job as the notebook runs it: with [ClassifyImage] built from the
    default ResNet-50 weights as the batched transform. *)
Section TheNotebook.

Variable download : string -> res (list byte).
Variable decode : list byte -> res tensor.
Variable resample : nat -> nat -> tensor -> list Z.

Variable score : Type.
Variable score_ltb : score -> score -> bool.
Variable ftensor : Type.
Variable softmax0 : list (list score) -> list (list score).
Variable resnet50 : ClassifyImage.Weights ftensor -> ftensor -> list (list score).
Variable ResNet50_Weights_DEFAULT : ClassifyImage.Weights ftensor.

Definition classify_image : series -> list nat -> res series :=
  daft_udf_string
    (ClassifyImage.__call__ score_ltb softmax0
       (ClassifyImage.__init__ resnet50 ResNet50_Weights_DEFAULT)).

Definition notebook (delta_table : DataFrame) (fs : filesystem) : M DataFrame :=
  run_and_read download decode resample classify_image delta_table fs.

End TheNotebook.

(* ================================================================== *)
(** ** Row-wise reading of expressions

    An expression without batched transforms is a function of one row. *)

Fixpoint udf_free (e : expr) : bool :=
  match e with
  | col _ | lit _ => true
  | add a b | eq_ a b => udf_free a && udf_free b
  | list_lengths e' | url_download e' | image_decode e'
  | image_resize _ _ e' | apply _ e' => udf_free e'
  | udf _ _ _ => false
  end.

Section RowWise.

Variable download : string -> res (list byte).
Variable decode : list byte -> res tensor.
Variable resample : nat -> nat -> tensor -> list Z.

Fixpoint eval_row (r : row) (e : expr) : res value :=
  match e with
  | col c => of_option (KeyError c) (get c r)
  | lit v => Ok v
  | add a b =>
      res_bind (eval_row r a) (fun x =>
      res_bind (eval_row r b) (fun y => add_value x y))
  | eq_ a b =>
      res_bind (eval_row r a) (fun x =>
      res_bind (eval_row r b) (fun y => eq_value x y))
  | list_lengths e' => res_bind (eval_row r e') list_length_value
  | url_download e' => res_bind (eval_row r e') (download_value download)
  | image_decode e' => res_bind (eval_row r e') (decode_value decode)
  | image_resize w h e' => res_bind (eval_row r e') (resize_value resample w h)
  | apply f e' => res_bind (eval_row r e') f
  | udf _ _ _ => Err TypeError
  end.

(** The predicate a filter expression computes on a row. *)
Definition holds (e : expr) (r : row) : bool :=
  match eval_row r e with
  | Ok (VBool b) => b
  | _ => false
  end.

(** The value a derivation computes on a row. *)
Definition value_of (e : expr) (r : row) : value :=
  match eval_row r e with
  | Ok v => v
  | Err _ => VBool false
  end.

Definition evaluates (e : expr) (r : row) : Prop :=
  exists v, eval_row r e = Ok v.

Definition decides (e : expr) (r : row) : Prop :=
  exists b, eval_row r e = Ok (VBool b).

End RowWise.

Definition filter_rows (f : row -> bool) (df : DataFrame) : DataFrame :=
  {| schema := schema df; partitions := map (filter f) (partitions df) |}.

Definition map_rows (c : string) (f : row -> value) (df : DataFrame) : DataFrame :=
  {| schema := extend_schema (schema df) c;
     partitions := map (map (fun r => set c (f r) r)) (partitions df) |}.

(** Column [c] is declared and holds a list in every row. *)
Definition list_valued (c : string) (df : DataFrame) : bool :=
  has_column (schema df) c &&
  forallb (fun r => match get c r with Some (VList _) => true | _ => false end)
          (rows df).

(* ================================================================== *)
(** ** What the pipeline establishes about a row *)

Definition image_url_of (filename : string) : string :=
  String.append (String.append images_prefix filename) ".jpeg".

Section RowFacts.

Variable download : string -> res (list byte).
Variable decode : list byte -> res tensor.
Variable resample : nat -> nat -> tensor -> list Z.

Definition has_object (r : row) : Prop :=
  exists l, get "object" r = Some (VList l) /\ length l = 1.

Definition has_url (r : row) : Prop :=
  exists fn, get "filename" r = Some (VStr fn) /\
             get "image_url" r = Some (VStr (image_url_of fn)).

Definition has_image (r : row) : Prop :=
  exists url b t, get "image_url" r = Some (VStr url) /\
                  download url = Ok b /\ decode b = Ok t /\
                  get "image" r = Some (VImage t).

Definition has_resized (c : string) (w h : nat) (r : row) : Prop :=
  exists t h0 w0 ch,
    get "image" r = Some (VImage t) /\ shape t = [h0; w0; ch] /\
    get c r = Some (VImage {| shape := [h; w; ch]; data := resample w h t |}).

Definition three_channels (r : row) : Prop :=
  exists t, get "image" r = Some (VImage t) /\ nth_error (shape t) 2 = Some 3.

(** What holds of each row once the images are fetched and resized. *)
Definition preprocessed_row (r : row) : Prop :=
  has_object r /\ has_url r /\ has_image r /\
  has_resized "image_resized_small" 32 32 r /\
  has_resized "image_resized_large" 256 256 r.

(** Every fact at once: what holds of each row the inference stages
    see. *)
Definition prepared_row (r : row) : Prop :=
  has_object r /\ has_url r /\ has_image r /\
  has_resized "image_resized_small" 32 32 r /\
  has_resized "image_resized_large" 256 256 r /\
  three_channels r.

(** What remains visible after the projection: the image itself is
    gone, but it is the one the row's URL decodes to. *)
Definition result_row (r : row) : Prop :=
  has_object r /\ has_url r /\
  exists url b t, get "image_url" r = Some (VStr url) /\
                  download url = Ok b /\ decode b = Ok t /\
                  nth_error (shape t) 2 = Some 3.

(** A column holding an array of exactly the given shape. *)
Definition holds_tensor (c : string) (shp : list nat) (r : row) : Prop :=
  exists t, get c r = Some (VImage t) /\ shape t = shp.

End RowFacts.

(** A batch as the inference stages must pass it: arrays of exactly the
    declared shape, whose third dimension is 3. *)
Definition batch_ok (cl : call) : Prop :=
  forallb (is_tensor_of (snd cl)) (fst cl) = true /\ nth_error (snd cl) 2 = Some 3.

(** ** The end-to-end scenario *)

(** An input row: a text filename and exactly one object. *)
Definition input_row (r : row) : Prop :=
  (exists fn, get "filename" r = Some (VStr fn)) /\ has_object r.

Definition input_row_named (fn : string) (r : row) : bool :=
  match get "filename" r, get "object" r with
  | Some (VStr f), Some (VList [_]) => String.eqb f fn
  | _, _ => false
  end.

(** A three-row table with filenames a, b, c, one object per row. *)
Definition three_rows_abc (df : DataFrame) : bool :=
  has_column (schema df) "filename" && has_column (schema df) "object" &&
  match rows df with
  | [r1; r2; r3] =>
      input_row_named "a" r1 && input_row_named "b" r2 && input_row_named "c" r3
  | _ => false
  end.

Definition fresh_output (fs : filesystem) : bool :=
  forallb (fun f => negb (under results_path f)) fs.

Definition labelled_cat (r : row) : Prop :=
  get "predictions_lowres" r = Some (VStr "cat") /\
  get "predictions_highres" r = Some (VStr "cat").

Definition present (c : string) (r : row) : Prop := exists v, get c r = Some v.

(** A row of a running job: it stems from the input row [a], and the
    listed columns are set in it. *)
Definition carried (cols : list string) (a r : row) : Prop :=
  get "filename" r = get "filename" a /\ Forall (fun c => present c r) cols.

(** A table together with what is known of it while the job runs: its
    rows stem one to one from the input rows [rs0], carry the columns
    [cols], which its schema declares, and satisfy [E]; it has [n]
    partitions. *)
Definition tracks (rs0 : list row) (cols : list string) (E : row -> Prop) (n : nat)
           (df : DataFrame) : Prop :=
  Forall2 (fun a r => carried cols a r /\ E r) rs0 (rows df) /\
  length (partitions df) = n /\
  forallb (has_column (schema df)) cols = true.

(* ================================================================== *)
(** ** Concrete inputs *)

Module Demo.

Definition one_object : object_struct :=
  {| box := {| xmax := "251"; xmin := "1"; ymax := "374"; ymin := "2" |};
     difficult := "0"; name := "n02488291"; pose := "Unspecified";
     truncated := "0" |}.

Definition input (filename : string) (objects : list object_struct) : row :=
  [("filename", VStr filename); ("object", VList objects)].

(** Three rows in two partitions, one object each. *)
Definition table_abc : DataFrame :=
  {| schema := ["filename"; "object"];
     partitions := [[input "a" [one_object]; input "b" [one_object]];
                    [input "c" [one_object]]] |}.

(** The same three filenames, but row b annotates two objects. *)
Definition table_crowded : DataFrame :=
  {| schema := ["filename"; "object"];
     partitions := [[input "a" [one_object]; input "b" [one_object; one_object]];
                    [input "c" [one_object]]] |}.

Definition pixels (h w c : nat) : tensor :=
  {| shape := [h; w; c]; data := repeat 7%Z (h * w * c) |}.

Definition download_stub (url : string) : res (list byte) := Ok [].

(** Fetches one byte for image a and two for every other image. *)
Definition download_by_name (url : string) : res (list byte) :=
  if String.eqb url (image_url_of "a") then Ok [x01] else Ok [x02; x03].

(** Decodes one byte to a grey image and anything else to a colour
    image. *)
Definition decode_by_size (b : list byte) : res tensor :=
  match b with
  | [_] => Ok (pixels 4 4 1)
  | _ => Ok (pixels 4 4 3)
  end.

Definition resample_stub (w h : nat) (t : tensor) : list Z := [].

(** A four-label network over integer scores. *)
Definition softmax0 (y : list (list Z)) : list (list Z) := y.

Definition net : ClassifyImage.t Z tensor :=
  {| ClassifyImage.model :=
       fun x => map (fun i => [1; 5; Z.of_nat i * 4; 2]%Z) (seq 0 (hd 0 (shape x)));
     ClassifyImage.preprocess := fun x => x;
     ClassifyImage.category_map :=
       ["tench"; "goldfish"; "great white shark"; "tiger shark"] |}.

Definition batch : series :=
  [VImage {| shape := [1; 2; 3]; data := [1; 2; 3; 4; 5; 6]%Z |};
   VImage {| shape := [1; 2; 3]; data := [6; 5; 4; 3; 2; 1]%Z |};
   VImage {| shape := [1; 2; 3]; data := [0; 0; 0; 9; 9; 9]%Z |}].

(** The tables and files of the job on [table_crowded] with image a
    grey. *)
Definition prepared_table : DataFrame :=
  Eval vm_compute in
    match fst (prepared download_by_name decode_by_size resample_stub table_crowded) with
    | Ok df => df
    | Err _ => {| schema := []; partitions := [] |}
    end.

Definition intermediate_table : DataFrame :=
  Eval vm_compute in
    match fst (intermediate download_by_name decode_by_size resample_stub
                 stub_classifier table_crowded) with
    | Ok df => df
    | Err _ => {| schema := []; partitions := [] |}
    end.

Definition written : list string * filesystem :=
  Eval vm_compute in
    match fst (run download_by_name decode_by_size resample_stub
                 stub_classifier table_crowded []) with
    | Ok out => out
    | Err _ => ([], [])
    end.

End Demo.

(* ================================================================== *)
(** ** Which rows the job writes *)

Section Selection.

Variable download : string -> res (list byte).
Variable decode : list byte -> res tensor.
Variable resample : nat -> nat -> tensor -> list Z.

(** The image a row's file decodes to: the notebook's
    [df["image_url"].url.download().image.decode()] on the URL derived
    from the row's filename. *)
Definition fetch_image (r : row) : res tensor :=
  match get "filename" r with
  | Some (VStr fn) => res_bind (download (image_url_of fn)) decode
  | Some _ => Err TypeError
  | None => Err (KeyError "filename")
  end.

(** [df["object"].list.lengths() == 1] as a decision on a row. *)
Definition has_one_object (r : row) : bool :=
  match get "object" r with
  | Some (VList [_]) => true
  | _ => false
  end.

(** [img.shape[2] == 3] on the row's decoded image. *)
Definition has_three_channels (r : row) : bool :=
  match fetch_image r with
  | Ok t =>
      match nth_error (shape t) 2 with
      | Some c => Nat.eqb c 3
      | None => false
      end
  | Err _ => false
  end.

Definition selected (r : row) : bool := has_one_object r && has_three_channels r.

(** An output row and the input row it stems from. *)
Definition same_source (r r' : row) : Prop :=
  get "filename" r' = get "filename" r /\ get "object" r' = get "object" r.

(** A row after the cell "Retrieving the images and preprocessing", in
    terms of the row before it. *)
Definition preprocessed_from (r r' : row) : Prop :=
  exists fn b t h0 w0 ch,
    get "filename" r = Some (VStr fn) /\
    download (image_url_of fn) = Ok b /\ decode b = Ok t /\
    shape t = [h0; w0; ch] /\
    r' = set "image_resized_large"
           (VImage {| shape := [256; 256; ch]; data := resample 256 256 t |})
           (set "image_resized_small"
              (VImage {| shape := [32; 32; ch]; data := resample 32 32 t |})
              (set "image" (VImage t)
                 (set "image_url" (VStr (image_url_of fn)) r))).

(** An input row the job can process: text filename, a list of objects,
    and, if that list has one entry, an image that fetches and decodes to
    height x width x channels. *)
Definition processable (r : row) : Prop :=
  (exists l, get "object" r = Some (VList l)) /\
  (has_one_object r = true ->
   exists t h w c, fetch_image r = Ok t /\ shape t = [h; w; c]).

End Selection.

(** A text value drawn from a list of labels. *)
Definition label_of (labels : list string) (v : value) : Prop :=
  exists s, v = VStr s /\ In s labels.

Module Demo2.

(** Softmax over a batch of one: every entry becomes 1. *)
Definition softmax0 (y : list (list Z)) : list (list Z) :=
  match y with
  | [row] => [map (fun _ => 1%Z) row]
  | _ => y
  end.

(** The object store lacks image b. *)
Definition download_without_b (url : string) : res (list byte) :=
  if String.eqb url (image_url_of "b") then Err (IOError url) else Ok [x02; x03].

Definition weights : ClassifyImage.Weights tensor :=
  {| ClassifyImage.transforms := fun x => x;
     ClassifyImage.meta_categories :=
       ["tench"; "goldfish"; "great white shark"; "tiger shark"] |}.

Definition resnet50 (w : ClassifyImage.Weights tensor) (x : tensor) : list (list Z) :=
  map (fun i => [1; 5; Z.of_nat i * 4; 2]%Z) (seq 0 (hd 0 (shape x))).

End Demo2.

Module Demo3.

(** A table whose schema has no object column. *)
Definition table_no_object : DataFrame :=
  {| schema := ["filename"];
     partitions := [[[("filename", VStr "a")]]] |}.

(** A table none of whose rows is selected: row a is grey and row b
    lists two objects. *)
Definition table_none : DataFrame :=
  {| schema := ["filename"; "object"];
     partitions := [[Demo.input "a" [Demo.one_object];
                     Demo.input "b" [Demo.one_object; Demo.one_object]]] |}.

End Demo3.

(* ================================================================== *)
(** * Properties *)

(** ** Results and sequences of results *)

Lemma res_bind_Ok A B (m : res A) (k : A -> res B) (b : B) :
  res_bind m k = Ok b <-> exists a, m = Ok a /\ k a = Ok b.
Proof.
  destruct m as [a|e]; simpl; split.
  - intros H; exists a; auto.
  - intros (a' & Ha & Hk); congruence.
  - discriminate.
  - intros (a' & Ha & _); discriminate.
Qed.

Lemma mapM_res_Forall2 A B (f : A -> res B) (l : list A) (l' : list B) :
  mapM_res f l = Ok l' <-> Forall2 (fun a b => f a = Ok b) l l'.
Proof.
  revert l'; induction l as [|a l IH]; intros l'; simpl.
  - split.
    + intros H; injection H as <-; constructor.
    + intros H; inversion H; reflexivity.
  - rewrite res_bind_Ok. split.
    + intros (b & Hb & H). apply res_bind_Ok in H. destruct H as (bs & Hbs & H).
      injection H as <-. constructor; [assumption | now apply IH].
    + intros H. inversion H as [|? b ? bs Hb Hbs]; subst.
      exists b; split; [assumption|]. apply res_bind_Ok.
      exists bs; split; [now apply IH | reflexivity].
Qed.

Lemma Forall2_length_eq A B (R : A -> B -> Prop) l l' :
  Forall2 R l l' -> length l' = length l.
Proof. induction 1; simpl; congruence. Qed.

Lemma mapM_res_length A B (f : A -> res B) l l' :
  mapM_res f l = Ok l' -> length l' = length l.
Proof. intros H; apply mapM_res_Forall2 in H. eapply Forall2_length_eq; eauto. Qed.

(** Every element succeeds with a result satisfying [Q]: so does the
    sequence. *)
Lemma mapM_res_total A B (f : A -> res B) (Q : B -> Prop) (l : list A) :
  Forall (fun a => exists b, f a = Ok b /\ Q b) l ->
  exists l', mapM_res f l = Ok l' /\ length l' = length l /\ Forall Q l'.
Proof.
  induction 1 as [|a l (b & Hb & Qb) _ (l' & Hl' & Hlen & HQ)]; simpl.
  - exists []; repeat split; constructor.
  - exists (b :: l'). rewrite Hb, Hl'; simpl. repeat split; auto.
Qed.

Lemma shape_eqb_eq a b : shape_eqb a b = true <-> a = b.
Proof.
  revert b; induction a as [|x a IH]; destruct b as [|y b]; simpl;
    try (split; [discriminate | congruence]); [tauto|].
  rewrite andb_true_iff, Nat.eqb_eq, IH. split.
  - intros [-> ->]; reflexivity.
  - intros H; injection H; auto.
Qed.

(** ** Engine computations *)

Lemma fst_bind A B (m : M A) (k : A -> M B) :
  fst (bind m k) = match fst m with Ok a => fst (k a) | Err e => Err e end.
Proof. destruct m as [[a|e] l]; simpl; [destruct (k a)|]; reflexivity. Qed.

Lemma snd_bind A B (m : M A) (k : A -> M B) :
  snd (bind m k) = snd m ++ match fst m with Ok a => snd (k a) | Err _ => [] end.
Proof.
  destruct m as [[a|e] l]; simpl.
  - destruct (k a); reflexivity.
  - now rewrite app_nil_r.
Qed.

Lemma bind_Ok A B (m : M A) (k : A -> M B) (b : B) :
  fst (bind m k) = Ok b <-> exists a, fst m = Ok a /\ fst (k a) = Ok b.
Proof.
  rewrite fst_bind. destruct (fst m) as [a|e]; split.
  - intros H; exists a; auto.
  - intros (a' & Ha & Hk); congruence.
  - discriminate.
  - intros (a' & Ha & _); discriminate.
Qed.

Lemma M_eta A (m : M A) (r : res A) (l : list call) :
  fst m = r -> snd m = l -> m = (r, l).
Proof. destruct m; simpl; congruence. Qed.

Lemma mapM_Forall2 A B (f : A -> M B) (l : list A) (l' : list B) :
  fst (mapM f l) = Ok l' <-> Forall2 (fun a b => fst (f a) = Ok b) l l'.
Proof.
  revert l'; induction l as [|a l IH]; intros l'; simpl.
  - split.
    + intros H; injection H as <-; constructor.
    + intros H; inversion H; reflexivity.
  - rewrite bind_Ok. split.
    + intros (b & Hb & H). apply bind_Ok in H. destruct H as (bs & Hbs & H).
      simpl in H. injection H as <-. constructor; [assumption | now apply IH].
    + intros H. inversion H as [|? b ? bs Hb Hbs]; subst.
      exists b; split; [assumption|]. apply bind_Ok.
      exists bs; split; [now apply IH | reflexivity].
Qed.

(** The log of a traversal collects the logs of its steps. *)
Lemma mapM_log A B (f : A -> M B) (P : call -> Prop) (l : list A) :
  Forall (fun a => Forall P (snd (f a))) l -> Forall P (snd (mapM f l)).
Proof.
  induction 1 as [|a l Ha _ IH]; simpl.
  - constructor.
  - rewrite snd_bind. apply Forall_app; split; [assumption|].
    destruct (fst (f a)); [|constructor].
    rewrite snd_bind. apply Forall_app; split; [assumption|].
    destruct (fst (mapM f l)); constructor.
Qed.

Lemma mapM_silent A B (f : A -> M B) (l : list A) :
  Forall (fun a => snd (f a) = []) l -> snd (mapM f l) = [].
Proof.
  induction 1 as [|a l Ha _ IH]; simpl; [reflexivity|].
  rewrite snd_bind, Ha. destruct (fst (f a)); [|reflexivity].
  rewrite snd_bind, IH. destruct (fst (mapM f l)); reflexivity.
Qed.

(** ** Lists related pointwise *)

Lemma Forall2_iff A B (R R' : A -> B -> Prop) l l' :
  (forall a b, R a b <-> R' a b) -> Forall2 R l l' <-> Forall2 R' l l'.
Proof.
  intros H; split; intros F; (eapply Forall2_impl; [|exact F]); intros a b; apply H.
Qed.

Lemma Forall2_compose A B C (P : A -> B -> Prop) (R : B -> C -> Prop) p s :
  (exists x, Forall2 P p x /\ Forall2 R x s) <->
  Forall2 (fun r z => exists u, P r u /\ R u z) p s.
Proof.
  split.
  - intros (x & HP & HR). revert s HR.
    induction HP as [|r u p x Hu _ IH]; intros s HR; inversion HR; subst;
      constructor; eauto.
  - induction 1 as [|r z p s (u & Hu & Hz) _ (x & HP & HR)].
    + exists []; split; constructor.
    + exists (u :: x); split; constructor; assumption.
Qed.

Lemma Forall2_zip A B C D (P : A -> B -> Prop) (Q : A -> C -> Prop)
      (R : B -> C -> D -> Prop) p s :
  (exists x y, Forall2 P p x /\ Forall2 Q p y /\
               Forall2 (fun uv z => R (fst uv) (snd uv) z) (combine x y) s) <->
  Forall2 (fun r z => exists u v, P r u /\ Q r v /\ R u v z) p s.
Proof.
  split.
  - intros (x & y & HP & HQ & HR). revert y s HQ HR.
    induction HP as [|r u p x Hu _ IH]; intros y s HQ HR;
      inversion HQ; subst; simpl in HR; inversion HR; subst; constructor; eauto.
  - induction 1 as [|r z p s (u & v & Hu & Hv & Hz) _ (x & y & HP & HQ & HR)].
    + exists [], []; repeat split; constructor.
    + exists (u :: x), (v :: y); repeat split; simpl; constructor; assumption.
Qed.

Lemma Forall2_repeat A B (v : B) (p : list A) (s : list B) :
  repeat v (length p) = s <-> Forall2 (fun _ x => v = x) p s.
Proof.
  revert s; induction p as [|r p IH]; intros s; simpl; split.
  - intros <-; constructor.
  - intros H; inversion H; reflexivity.
  - intros <-; constructor; [reflexivity | now apply IH].
  - intros H; inversion H; subst. f_equal. now apply IH.
Qed.

Lemma Forall2_map_eq A B (f : A -> B) (p : list A) (s : list B) :
  Forall2 (fun r v => f r = v) p s <-> s = map f p.
Proof.
  revert s; induction p as [|r p IH]; intros s; simpl; split.
  - intros H; inversion H; reflexivity.
  - intros ->; constructor.
  - intros H; inversion H; subst. f_equal. now apply IH.
  - intros ->; constructor; [reflexivity | now apply IH].
Qed.

Lemma Forall2_Forall_l A B (R : A -> B -> Prop) (P : A -> Prop) l l' :
  Forall2 R l l' -> (forall a b, R a b -> P a) -> Forall P l.
Proof. induction 1; intros H'; constructor; eauto. Qed.

Lemma Forall2_Forall_r A B (R : A -> B -> Prop) (Q : B -> Prop) l l' :
  Forall2 R l l' -> (forall a b, R a b -> Q b) -> Forall Q l'.
Proof. induction 1; intros H'; constructor; eauto. Qed.

Lemma Forall2_concat A B (R : A -> B -> Prop) ps ps' :
  Forall2 (Forall2 R) ps ps' -> Forall2 R (concat ps) (concat ps').
Proof.
  induction 1; simpl; [constructor | now apply Forall2_app].
Qed.

Lemma Forall_concat A (P : A -> Prop) (ps : list (list A)) :
  Forall P (concat ps) <-> Forall (Forall P) ps.
Proof.
  induction ps as [|p ps IH]; simpl.
  - split; constructor.
  - rewrite Forall_app, IH. split.
    + intros [H1 H2]; constructor; assumption.
    + intros H; inversion H; auto.
Qed.

Lemma concat_map_filter A (f : A -> bool) (ps : list (list A)) :
  concat (map (filter f) ps) = filter f (concat ps).
Proof.
  induction ps as [|p ps IH]; simpl; [reflexivity|].
  now rewrite filter_app, IH.
Qed.

Lemma filter_idempotent A (f : A -> bool) (l : list A) :
  filter f (filter f l) = filter f l.
Proof.
  induction l as [|a l IH]; simpl; [reflexivity|].
  destruct (f a) eqn:E; simpl; [rewrite E, IH|]; auto.
Qed.

Lemma Forall2_total_map A B (f : A -> res B) (sel : A -> B) (l : list A) (l' : list B) :
  (forall a b, f a = Ok b -> sel a = b) ->
  Forall2 (fun a b => f a = Ok b) l l' <->
  Forall (fun a => exists b, f a = Ok b) l /\ l' = map sel l.
Proof.
  intros Hsel. split.
  - induction 1 as [|a b l l' Hab _ [IH1 IH2]]; simpl.
    + split; [constructor | reflexivity].
    + split; [constructor; eauto|]. f_equal; [symmetry; now apply Hsel | assumption].
  - intros [HF ->]. induction HF as [|a l (b & Hb) _ IH]; simpl; constructor; auto.
    rewrite Hb. f_equal. symmetry. now apply Hsel.
Qed.

Lemma Forall2_and_map A B (P : A -> Prop) (f : A -> B) (l : list A) (l' : list B) :
  Forall2 (fun a b => P a /\ b = f a) l l' <-> Forall P l /\ l' = map f l.
Proof.
  split.
  - induction 1 as [|a b l l' [Ha ->] _ [IH1 ->]]; simpl; split; auto.
  - intros [HF ->]. induction HF; simpl; constructor; auto.
Qed.

Lemma map_combine_map A B C (g : A -> B) (h : A -> B -> C) (p : list A) :
  map (fun rv => h (fst rv) (snd rv)) (combine p (map g p)) = map (fun r => h r (g r)) p.
Proof. induction p as [|r p IH]; simpl; congruence. Qed.

Lemma keep_map A (f : A -> bool) (p : list A) :
  map fst (filter snd (combine p (map f p))) = filter f p.
Proof.
  induction p as [|r p IH]; simpl; [reflexivity|].
  destruct (f r); simpl; congruence.
Qed.

(* ================================================================== *)
(** ** Expressions over a partition and over a row *)

Section EngineProperties.

Variable download : string -> res (list byte).
Variable decode : list byte -> res tensor.
Variable resample : nat -> nat -> tensor -> list Z.

Local Abbreviation eval' := (eval download decode resample).
Local Abbreviation eval_row' := (eval_row download decode resample).
Local Abbreviation holds' := (holds download decode resample).
Local Abbreviation value_of' := (value_of download decode resample).
Local Abbreviation decides' := (decides download decode resample).
Local Abbreviation evaluates' := (evaluates download decode resample).
Local Abbreviation where' := (where_ download decode resample).
Local Abbreviation with_column' := (with_column download decode resample).

Lemma eval_silent (p : partition) (e : expr) :
  udf_free e = true -> snd (eval' p e) = [].
Proof.
  induction e as [c|v|a IHa b IHb|a IHa b IHb|e IH|e IH|e IH|w h e IH|f e IH|f e IH shp];
    simpl; intros H; try reflexivity; try discriminate;
    try (apply andb_true_iff in H; destruct H as [Ha Hb];
         rewrite snd_bind, (IHa Ha); destruct (fst (eval' p a)); [|reflexivity];
         rewrite snd_bind, (IHb Hb); destruct (fst (eval' p b)); reflexivity);
    rewrite snd_bind, (IH H); destruct (fst (eval' p e)); reflexivity.
Qed.

Lemma lift_unary (m : M series) (f : value -> res value)
      (P : row -> value -> Prop) (p : partition) :
  (forall x, fst m = Ok x <-> Forall2 P p x) ->
  forall s, fst (bind m (fun x => lift (mapM_res f x))) = Ok s <->
            Forall2 (fun r z => exists u, P r u /\ f u = Ok z) p s.
Proof.
  intros Hm s. rewrite bind_Ok, <- Forall2_compose.
  split; intros (x & Hx & H); exists x; (split; [now apply Hm|]);
    simpl in *; now apply mapM_res_Forall2.
Qed.

Lemma lift_binary (ma mb : M series) (f : value -> value -> res value)
      (P Q : row -> value -> Prop) (p : partition) :
  (forall x, fst ma = Ok x <-> Forall2 P p x) ->
  (forall y, fst mb = Ok y <-> Forall2 Q p y) ->
  forall s,
    fst (bind ma (fun x => bind mb (fun y =>
           lift (mapM_res (fun uv => f (fst uv) (snd uv)) (combine x y))))) = Ok s <->
    Forall2 (fun r z => exists u v, P r u /\ Q r v /\ f u v = Ok z) p s.
Proof.
  intros Ha Hb s. rewrite bind_Ok, <- Forall2_zip. split.
  - intros (x & Hx & H). apply bind_Ok in H. destruct H as (y & Hy & H).
    exists x, y. repeat split; [now apply Ha | now apply Hb |].
    simpl in H. now apply mapM_res_Forall2 in H.
  - intros (x & y & Hx & Hy & H). exists x; split; [now apply Ha|].
    apply bind_Ok. exists y; split; [now apply Hb|].
    simpl. now apply mapM_res_Forall2.
Qed.

(** On expressions without batched transforms the columnar evaluator
    agrees with the row-wise reading. *)
Lemma eval_rowwise (p : partition) (e : expr) :
  udf_free e = true ->
  forall s, fst (eval' p e) = Ok s <-> Forall2 (fun r v => eval_row' r e = Ok v) p s.
Proof.
  induction e as [c|v|a IHa b IHb|a IHa b IHb|e IH|e IH|e IH|w h e IH|f e IH|f e IH shp];
    simpl; intros H s; try discriminate.
  - apply mapM_res_Forall2.
  - split.
    + intros E; injection E as E. apply Forall2_repeat in E.
      eapply Forall2_impl; [|exact E]. simpl; congruence.
    + intros E. rewrite (proj2 (Forall2_repeat v p s)); [reflexivity|].
      eapply Forall2_impl; [|exact E]. simpl; congruence.
  - apply andb_true_iff in H; destruct H as [Ha Hb].
    rewrite (lift_binary _ _ add_value (IHa Ha) (IHb Hb)). apply Forall2_iff.
    intros r z. rewrite res_bind_Ok. split.
    + intros (u & v & Hu & Hv & Hz). exists u; split; [assumption|].
      apply res_bind_Ok; eauto.
    + intros (u & Hu & Hz). apply res_bind_Ok in Hz. destruct Hz as (v & Hv & Hz). eauto.
  - apply andb_true_iff in H; destruct H as [Ha Hb].
    rewrite (lift_binary _ _ eq_value (IHa Ha) (IHb Hb)). apply Forall2_iff.
    intros r z. rewrite res_bind_Ok. split.
    + intros (u & v & Hu & Hv & Hz). exists u; split; [assumption|].
      apply res_bind_Ok; eauto.
    + intros (u & Hu & Hz). apply res_bind_Ok in Hz. destruct Hz as (v & Hv & Hz). eauto.
  - rewrite (lift_unary _ _ (IH H)). apply Forall2_iff.
    intros r z. now rewrite res_bind_Ok.
  - rewrite (lift_unary _ _ (IH H)). apply Forall2_iff.
    intros r z. now rewrite res_bind_Ok.
  - rewrite (lift_unary _ _ (IH H)). apply Forall2_iff.
    intros r z. now rewrite res_bind_Ok.
  - rewrite (lift_unary _ _ (IH H)). apply Forall2_iff.
    intros r z. now rewrite res_bind_Ok.
  - rewrite (lift_unary _ _ (IH H)). apply Forall2_iff.
    intros r z. now rewrite res_bind_Ok.
Qed.

Lemma value_of_eq (e : expr) (r : row) (v : value) :
  eval_row' r e = Ok v -> value_of' e r = v.
Proof. unfold value_of. now intros ->. Qed.

Lemma holds_eq (e : expr) (r : row) (b : bool) :
  res_bind (eval_row' r e) as_bool = Ok b -> holds' e r = b.
Proof.
  unfold holds. destruct (eval_row' r e) as [[]|]; simpl; congruence.
Qed.

Lemma decides_bind (e : expr) (r : row) :
  decides' e r <-> exists b, res_bind (eval_row' r e) as_bool = Ok b.
Proof.
  unfold decides. split; intros (b & H); exists b.
  - now rewrite H.
  - destruct (eval_row' r e) as [[]|]; simpl in H; congruence.
Qed.

(** *** Filtering *)

Lemma where_partition (e : expr) (p p' : partition) :
  udf_free e = true ->
  fst (bind (eval' p e) (fun s =>
       bind (lift (mapM_res as_bool s)) (fun mask => ret (keep p mask)))) = Ok p' <->
  Forall (decides' e) p /\ p' = filter (holds' e) p.
Proof.
  intros Hfree. rewrite bind_Ok. split.
  - intros (s & Hs & H). apply bind_Ok in H. destruct H as (mask & Hmask & H).
    simpl in Hmask, H. injection H as <-.
    apply (eval_rowwise p e Hfree) in Hs. apply mapM_res_Forall2 in Hmask.
    assert (F : Forall2 (fun r b => res_bind (eval_row' r e) as_bool = Ok b) p mask).
    { assert (F : exists x, Forall2 (fun r v => eval_row' r e = Ok v) p x /\
                            Forall2 (fun v b => as_bool v = Ok b) x mask) by eauto.
      apply Forall2_compose in F. eapply Forall2_impl; [|exact F].
      intros r b (v & Hv & Hb); simpl. now rewrite Hv. }
    apply (Forall2_total_map _ (holds' e)) in F; [|apply holds_eq].
    destruct F as [F ->]. split.
    + eapply Forall_impl; [|exact F]. intros r Hr. now apply decides_bind.
    + apply keep_map.
  - intros [F ->].
    assert (F' : Forall2 (fun r b => res_bind (eval_row' r e) as_bool = Ok b)
                   p (map (holds' e) p)).
    { apply (Forall2_total_map _ (holds' e)); [apply holds_eq|]. split; [|reflexivity].
      eapply Forall_impl; [|exact F]. intros r Hr. now apply decides_bind. }
    assert (G : Forall2 (fun r b => exists v, eval_row' r e = Ok v /\ as_bool v = Ok b)
                  p (map (holds' e) p)).
    { eapply Forall2_impl; [|exact F']. intros r b Hb; simpl in Hb.
      apply res_bind_Ok in Hb. exact Hb. }
    apply Forall2_compose in G. destruct G as (s & Hs & Hmask).
    exists s; split; [now apply eval_rowwise|].
    apply bind_Ok. exists (map (holds' e) p); split.
    + simpl. now apply mapM_res_Forall2.
    + simpl. unfold keep. now rewrite keep_map.
Qed.

Lemma where_partition_silent (e : expr) (p : partition) :
  udf_free e = true ->
  snd (bind (eval' p e) (fun s =>
       bind (lift (mapM_res as_bool s)) (fun mask => ret (keep p mask)))) = [].
Proof.
  intros Hfree. rewrite snd_bind, (eval_silent p e Hfree).
  destruct (fst (eval' p e)) as [s|]; [|reflexivity].
  rewrite snd_bind. simpl. destruct (mapM_res as_bool s); reflexivity.
Qed.

Lemma where_silent (e : expr) (df : DataFrame) :
  udf_free e = true -> snd (where' e df) = [].
Proof.
  intros Hfree. unfold where_.
  rewrite snd_bind; simpl. destruct (resolve (schema df) e); [|reflexivity].
  rewrite snd_bind, mapM_silent.
  - destruct (fst (mapM _ (partitions df))); reflexivity.
  - apply Forall_forall. intros p _. now apply where_partition_silent.
Qed.

(** A successful filter kept exactly the rows its predicate holds' on. *)
Lemma where_sound (e : expr) (df df' : DataFrame) :
  udf_free e = true ->
  fst (where' e df) = Ok df' ->
  resolve (schema df) e = Ok tt /\
  Forall (decides' e) (rows df) /\
  df' = filter_rows (holds' e) df.
Proof.
  intros Hfree H. unfold where_ in H.
  apply bind_Ok in H. destruct H as ([] & Hres & H). simpl in Hres.
  apply bind_Ok in H. destruct H as (ps & Hps & H). simpl in H. injection H as <-.
  apply mapM_Forall2 in Hps.
  assert (F : Forall2 (fun p p' => Forall (decides' e) p /\ p' = filter (holds' e) p)
                (partitions df) ps).
  { eapply Forall2_impl; [|exact Hps]. intros p p' Hp. now apply where_partition. }
  apply Forall2_and_map in F. destruct F as [F ->].
  repeat split; [assumption | now apply Forall_concat].
Qed.

Lemma where_exact (e : expr) (df : DataFrame) :
  udf_free e = true ->
  resolve (schema df) e = Ok tt ->
  Forall (decides' e) (rows df) ->
  where' e df = (Ok (filter_rows (holds' e) df), []).
Proof.
  intros Hfree Hres F. apply M_eta; [|now apply where_silent].
  unfold where_. apply bind_Ok. exists tt; split; [exact Hres|].
  apply bind_Ok. exists (map (filter (holds' e)) (partitions df)); split; [|reflexivity].
  apply mapM_Forall2.
  assert (G : Forall2 (fun p p' => Forall (decides' e) p /\ p' = filter (holds' e) p)
                (partitions df) (map (filter (holds' e)) (partitions df))).
  { apply Forall2_and_map. split; [now apply Forall_concat | reflexivity]. }
  eapply Forall2_impl; [|exact G]. intros p p' Hp. now apply where_partition.
Qed.


(** *** Derived columns *)

Lemma with_column_partition (c : string) (e : expr) (p p' : partition) :
  udf_free e = true ->
  fst (bind (eval' p e) (fun s =>
       ret (map (fun rv => set c (snd rv) (fst rv)) (combine p s)))) = Ok p' <->
  Forall (evaluates' e) p /\ p' = map (fun r => set c (value_of' e r) r) p.
Proof.
  intros Hfree. rewrite bind_Ok. split.
  - intros (s & Hs & H). simpl in H; injection H as <-.
    apply (eval_rowwise p e Hfree) in Hs.
    apply (Forall2_total_map _ (value_of' e)) in Hs; [|apply value_of_eq].
    destruct Hs as [F ->]. split; [exact F|].
    apply (map_combine_map (value_of' e) (fun r v => set c v r)).
  - intros [F ->]. exists (map (value_of' e) p); split.
    + apply eval_rowwise; [assumption|].
      apply (Forall2_total_map _ (value_of' e)); [apply value_of_eq|]. split; auto.
    + simpl. f_equal.
      apply (map_combine_map (value_of' e) (fun r v => set c v r)).
Qed.

Lemma with_column_silent (c : string) (e : expr) (df : DataFrame) :
  udf_free e = true -> snd (with_column' c e df) = [].
Proof.
  intros Hfree. unfold with_column.
  rewrite snd_bind; simpl. destruct (resolve (schema df) e); [|reflexivity].
  rewrite snd_bind, mapM_silent.
  - destruct (fst (mapM _ (partitions df))); reflexivity.
  - apply Forall_forall. intros p _.
    rewrite snd_bind, (eval_silent p e Hfree).
    destruct (fst (eval' p e)); reflexivity.
Qed.

(** A successful row-wise derivation set the column to the expression's
    value in every row. *)
Lemma with_column_sound (c : string) (e : expr) (df df' : DataFrame) :
  udf_free e = true ->
  fst (with_column' c e df) = Ok df' ->
  resolve (schema df) e = Ok tt /\
  Forall (evaluates' e) (rows df) /\
  df' = map_rows c (value_of' e) df.
Proof.
  intros Hfree H. unfold with_column in H.
  apply bind_Ok in H. destruct H as ([] & Hres & H). simpl in Hres.
  apply bind_Ok in H. destruct H as (ps & Hps & H). simpl in H. injection H as <-.
  apply mapM_Forall2 in Hps.
  assert (F : Forall2 (fun p p' => Forall (evaluates' e) p /\
                                   p' = map (fun r => set c (value_of' e r) r) p)
                (partitions df) ps).
  { eapply Forall2_impl; [|exact Hps]. intros p p' Hp. now apply with_column_partition. }
  apply Forall2_and_map in F. destruct F as [F ->].
  repeat split; [assumption | now apply Forall_concat].
Qed.

Lemma with_column_exact (c : string) (e : expr) (df : DataFrame) :
  udf_free e = true ->
  resolve (schema df) e = Ok tt ->
  Forall (evaluates' e) (rows df) ->
  with_column' c e df = (Ok (map_rows c (value_of' e) df), []).
Proof.
  intros Hfree Hres F. apply M_eta; [|now apply with_column_silent].
  unfold with_column. apply bind_Ok. exists tt; split; [exact Hres|].
  apply bind_Ok.
  exists (map (map (fun r => set c (value_of' e r) r)) (partitions df)); split;
    [|reflexivity].
  apply mapM_Forall2.
  assert (G : Forall2 (fun p p' => Forall (evaluates' e) p /\
                                   p' = map (fun r => set c (value_of' e r) r) p)
                (partitions df)
                (map (map (fun r => set c (value_of' e r) r)) (partitions df))).
  { apply Forall2_and_map. split; [now apply Forall_concat | reflexivity]. }
  eapply Forall2_impl; [|exact G]. intros p p' Hp. now apply with_column_partition.
Qed.

(** *** Batched transforms *)

Lemma eval_udf_col (c0 : string) (f : series -> list nat -> res series)
      (shp : list nat) (p : partition) :
  eval' p (udf f (col c0) shp) =
  bind (lift (column c0 p)) (fun x =>
  bind (invoke f x shp) (fun y =>
  if Nat.eqb (length y) (length p) then ret y else lift (Err ValueError))).
Proof. reflexivity. Qed.

Lemma udf_partition (c c0 : string) (f : series -> list nat -> res series)
      (shp : list nat) (p p' : partition) :
  fst (bind (eval' p (udf f (col c0) shp)) (fun s =>
       ret (map (fun rv => set c (snd rv) (fst rv)) (combine p s)))) = Ok p' <->
  exists x y, column c0 p = Ok x /\ f x shp = Ok y /\ length y = length p /\
              p' = map (fun rv => set c (snd rv) (fst rv)) (combine p y).
Proof.
  rewrite bind_Ok, eval_udf_col. split.
  - intros (s & Hs & H). simpl in H. injection H as <-.
    apply bind_Ok in Hs. destruct Hs as (x & Hx & Hs). simpl in Hx.
    apply bind_Ok in Hs. destruct Hs as (y & Hy & Hs). simpl in Hy.
    destruct (Nat.eqb_spec (length y) (length p)) as [E|E]; simpl in Hs; [|discriminate].
    injection Hs as <-. exists x, y. auto.
  - intros (x & y & Hx & Hy & Hlen & ->). exists y; split; [|reflexivity].
    apply bind_Ok. exists x; split; [exact Hx|].
    apply bind_Ok. exists y; split; [exact Hy|].
    apply Nat.eqb_eq in Hlen. now rewrite Hlen.
Qed.

(** The batches a batched derivation passes to its transform are columns
    of the table's partitions. *)
Lemma udf_partition_log (c c0 : string) (f : series -> list nat -> res series)
      (shp : list nat) (p : partition) :
  Forall (fun cl => column c0 p = Ok (fst cl) /\ snd cl = shp)
    (snd (bind (eval' p (udf f (col c0) shp)) (fun s =>
          ret (map (fun rv => set c (snd rv) (fst rv)) (combine p s))))).
Proof.
  rewrite snd_bind. apply Forall_app; split.
  - rewrite eval_udf_col, snd_bind. apply Forall_app; split; [constructor|].
    destruct (fst (lift (column c0 p))) as [x|] eqn:E; [|constructor].
    simpl in E. rewrite snd_bind. apply Forall_app; split.
    + constructor; [auto | constructor].
    + destruct (fst (invoke f x shp)) as [y|]; [|constructor].
      destruct (Nat.eqb (length y) (length p)); constructor.
  - destruct (fst (eval' p (udf f (col c0) shp))); constructor.
Qed.

Lemma with_column_udf_log (c c0 : string) (f : series -> list nat -> res series)
      (shp : list nat) (df : DataFrame) :
  Forall (fun cl => exists p, In p (partitions df) /\
                              column c0 p = Ok (fst cl) /\ snd cl = shp)
    (snd (with_column' c (udf f (col c0) shp) df)).
Proof.
  unfold with_column. rewrite snd_bind. simpl.
  destruct (resolve (schema df) (udf f (col c0) shp)); [|constructor].
  rewrite snd_bind. apply Forall_app; split.
  - apply mapM_log. apply Forall_forall. intros p Hp.
    eapply Forall_impl; [|apply udf_partition_log]. intros cl H. eauto.
  - destruct (fst (mapM _ (partitions df))); constructor.
Qed.

Lemma with_column_udf_sound (c c0 : string) (f : series -> list nat -> res series)
      (shp : list nat) (df df' : DataFrame) :
  fst (with_column' c (udf f (col c0) shp) df) = Ok df' ->
  has_column (schema df) c0 = true /\
  schema df' = extend_schema (schema df) c /\
  Forall2 (fun p p' =>
             exists x y, column c0 p = Ok x /\ f x shp = Ok y /\
                         length y = length p /\
                         p' = map (fun rv => set c (snd rv) (fst rv)) (combine p y))
          (partitions df) (partitions df').
Proof.
  intros H. unfold with_column in H.
  apply bind_Ok in H. destruct H as ([] & Hres & H). simpl in Hres.
  apply bind_Ok in H. destruct H as (ps & Hps & H). simpl in H. injection H as <-.
  apply mapM_Forall2 in Hps. repeat split.
  - unfold resolve, resolve_columns in Hres. simpl in Hres.
    destruct (has_column (schema df) c0); [reflexivity | discriminate].
  - simpl. eapply Forall2_impl; [|exact Hps]. intros p p' Hp. now apply udf_partition.
Qed.

Lemma combine_set_rows (c : string) (p : partition) (y : series) :
  length y = length p ->
  Forall2 (fun r r' => exists v, In v y /\ r' = set c v r) p
          (map (fun rv => set c (snd rv) (fst rv)) (combine p y)).
Proof.
  revert y; induction p as [|r p IH]; intros [|v y] Hlen; simpl in *;
    try discriminate; constructor.
  - exists v; auto.
  - eapply Forall2_impl; [|apply IH; lia].
    intros a b (u & Hu & ->). exists u; auto.
Qed.

(** Row by row: a successful batched derivation only sets its column. *)
Lemma with_column_udf_rows (c c0 : string) (f : series -> list nat -> res series)
      (shp : list nat) (df df' : DataFrame) :
  fst (with_column' c (udf f (col c0) shp) df) = Ok df' ->
  Forall2 (fun r r' => exists v, r' = set c v r) (rows df) (rows df').
Proof.
  intros H. apply with_column_udf_sound in H. destruct H as (_ & _ & F).
  apply Forall2_concat. eapply Forall2_impl; [|exact F].
  intros p p' (x & y & _ & _ & Hlen & ->).
  eapply Forall2_impl; [|apply combine_set_rows; exact Hlen].
  intros a b (v & _ & ->). eauto.
Qed.

Lemma column_total (c0 : string) (p : partition) :
  Forall (fun r => exists u, get c0 r = Some u) p ->
  exists x, column c0 p = Ok x /\ length x = length p.
Proof.
  intros F. destruct (mapM_res_total (fun r => of_option (KeyError c0) (get c0 r))
                        (fun _ => True) (l := p)) as (x & Hx & Hlen & _).
  - eapply Forall_impl; [|exact F]. intros r (u & Hu). rewrite Hu. simpl; eauto.
  - eauto.
Qed.

Lemma combine_repeat (c : string) (v : value) (p : partition) :
  map (fun rv => set c (snd rv) (fst rv)) (combine p (repeat v (length p))) =
  map (fun r => set c v r) p.
Proof. induction p as [|r p IH]; simpl; congruence. Qed.

(** A transform that answers every batch with one constant per row. *)
Lemma with_column_udf_constant (c c0 : string) (f : series -> list nat -> res series)
      (shp : list nat) (v : value) (df : DataFrame) :
  (forall x, f x shp = Ok (repeat v (length x))) ->
  has_column (schema df) c0 = true ->
  Forall (fun r => exists u, get c0 r = Some u) (rows df) ->
  fst (with_column' c (udf f (col c0) shp) df) = Ok (map_rows c (fun _ => v) df).
Proof.
  intros Hf Hcol F. unfold with_column. apply bind_Ok. exists tt; split.
  { unfold resolve, resolve_columns; simpl. now rewrite Hcol. }
  apply bind_Ok. exists (map (map (fun r => set c v r)) (partitions df)); split;
    [|reflexivity].
  apply mapM_Forall2. apply Forall_concat in F.
  induction F as [|p ps Hp _ IH]; simpl; constructor; [|exact IH].
  apply udf_partition. destruct (column_total c0 Hp) as (x & Hx & Hlen).
  exists x, (repeat v (length x)). repeat split; auto.
  - rewrite repeat_length. exact Hlen.
  - rewrite Hlen. symmetry. apply combine_repeat.
Qed.

End EngineProperties.

Lemma append_assoc (a b c : string) :
  String.append (String.append a b) c = String.append a (String.append b c).
Proof. induction a as [|x a IH]; simpl; congruence. Qed.

(* ================================================================== *)
(** ** Rows *)

Lemma get_set_same (c : string) (v : value) (r : row) :
  get c (set c v r) = Some v.
Proof.
  induction r as [|[k x] r IH]; simpl.
  - now rewrite String.eqb_refl.
  - destruct (String.eqb k c) eqn:E; simpl; rewrite E; auto.
Qed.

Lemma get_set_other (c c' : string) (v : value) (r : row) :
  String.eqb c c' = false -> get c' (set c v r) = get c' r.
Proof.
  intros Hne. induction r as [|[k x] r IH]; simpl.
  - now rewrite Hne.
  - destruct (String.eqb k c) eqn:E; simpl.
    + apply String.eqb_eq in E; subst k. now rewrite Hne.
    + destruct (String.eqb k c'); auto.
Qed.

Lemma project_row_get (cols : list string) (r r' : row) (c : string) :
  project_row cols r = Ok r' -> In c cols -> get c r' = get c r.
Proof.
  unfold project_row. revert r'.
  induction cols as [|c1 cols IH]; intros r' H Hin; [contradiction|].
  simpl in H. apply res_bind_Ok in H. destruct H as ([k v] & Hkv & H).
  apply res_bind_Ok in Hkv. destruct Hkv as (v' & Hv' & Hkv). injection Hkv as <- <-.
  apply res_bind_Ok in H. destruct H as (rest & Hrest & H). injection H as <-.
  simpl. destruct (String.eqb c1 c) eqn:E.
  - apply String.eqb_eq in E; subst c1.
    destruct (get c r); simpl in Hv'; congruence.
  - destruct Hin as [->|Hin]; [now rewrite String.eqb_refl in E|].
    now apply IH.
Qed.

Lemma project_row_total (cols : list string) (r : row) :
  Forall (fun c => exists v, get c r = Some v) cols ->
  exists r', project_row cols r = Ok r'.
Proof.
  intros F. destruct (mapM_res_total
    (fun c => res_bind (of_option (KeyError c) (get c r)) (fun v => Ok (c, v)))
    (fun _ => True) (l := cols)) as (r' & Hr' & _); [|eauto].
  eapply Forall_impl; [|exact F]. intros c (v & Hv). rewrite Hv. simpl; eauto.
Qed.

(* ================================================================== *)
(** ** Projection, limit, repartitioning *)

Lemma select_silent (cols : list string) (df : DataFrame) :
  snd (select cols df) = [].
Proof.
  unfold select. rewrite snd_bind.
  destruct (fst (lift (resolve_columns (schema df) cols))); [|reflexivity].
  rewrite snd_bind.
  destruct (fst (lift (mapM_res (mapM_res (project_row cols)) (partitions df))));
    reflexivity.
Qed.

Lemma select_sound (cols : list string) (df df' : DataFrame) :
  fst (select cols df) = Ok df' ->
  schema df' = cols /\
  Forall2 (fun r r' => project_row cols r = Ok r') (rows df) (rows df').
Proof.
  intros H. unfold select in H.
  apply bind_Ok in H. destruct H as ([] & _ & H).
  apply bind_Ok in H. destruct H as (ps & Hps & H). simpl in Hps, H.
  injection H as <-. split; [reflexivity|].
  apply mapM_res_Forall2 in Hps. apply Forall2_concat.
  eapply Forall2_impl; [|exact Hps]. intros p p' Hp. now apply mapM_res_Forall2.
Qed.

Lemma select_total (cols : list string) (df : DataFrame) :
  resolve_columns (schema df) cols = Ok tt ->
  Forall (fun r => Forall (fun c => exists v, get c r = Some v) cols) (rows df) ->
  exists df', fst (select cols df) = Ok df'.
Proof.
  intros Hres F. apply Forall_concat in F.
  destruct (mapM_res_total (mapM_res (project_row cols)) (fun _ => True)
              (l := partitions df)) as (ps & Hps & _).
  - eapply Forall_impl; [|exact F]. intros p Hp.
    destruct (mapM_res_total (project_row cols) (fun _ => True) (l := p))
      as (p' & Hp' & _); [|eauto].
    eapply Forall_impl; [|exact Hp]. intros r Hr.
    destruct (@project_row_total cols r Hr) as (r' & Hr'). eauto.
  - eexists. unfold select. apply bind_Ok. exists tt; split; [exact Hres|].
    apply bind_Ok. exists ps; split; [exact Hps | reflexivity].
Qed.

Lemma limit_rows (n : nat) (df : DataFrame) :
  rows (limit n df) = firstn n (rows df).
Proof.
  unfold rows, limit; simpl. revert n.
  induction (partitions df) as [|p ps IH]; intros n; simpl.
  - now rewrite firstn_nil.
  - now rewrite firstn_app, IH.
Qed.

Lemma split_even_concat A (k : nat) (l : list A) :
  1 <= k -> concat (split_even k l) = l.
Proof.
  revert l; induction k as [|k IH]; intros l Hk; [lia|].
  destruct k as [|k].
  - change (concat (split_even 1 l)) with (firstn ((length l + 0) / 1) l ++ []).
    rewrite Nat.add_0_r, Nat.div_1_r, firstn_all, app_nil_r. reflexivity.
  - change (concat (split_even (S (S k)) l))
      with (firstn ((length l + S k) / S (S k)) l ++
            concat (split_even (S k) (skipn ((length l + S k) / S (S k)) l))).
    rewrite IH by lia. apply firstn_skipn.
Qed.

Lemma split_even_length A (k : nat) (l : list A) :
  length (split_even k l) = k.
Proof. revert l; induction k as [|k IH]; intros l; simpl; auto. Qed.

(** From here on the blocks are only known through their concatenation
    and their number. *)
Global Opaque split_even.

(* ================================================================== *)
(** ** Reading back what was written *)

Lemma prefix_slash (root rest : string) :
  String.prefix (String.append root "/") (String.append root (String.append "/" rest)) = true.
Proof.
  induction root as [|a root IH]; simpl.
  - destruct (ascii_dec "/" "/"); [|congruence]. now destruct rest.
  - destruct (ascii_dec a a); [assumption | congruence].
Qed.

Lemma written_rows (root : string) (sch : list string) (ps : list partition) (n : nat) :
  map file_rows
      (map (fun ip => {| path := file_path root (fst ip);
                         file_schema := sch;
                         file_rows := snd ip |}) (combine (seq n (length ps)) ps)) = ps.
Proof.
  revert n; induction ps as [|p ps IH]; intros n; simpl; [reflexivity|].
  now rewrite IH.
Qed.

Lemma written_under (root : string) (sch : list string) (ps : list partition) (n : nat) :
  filter (under root)
      (map (fun ip => {| path := file_path root (fst ip);
                         file_schema := sch;
                         file_rows := snd ip |}) (combine (seq n (length ps)) ps)) =
  map (fun ip => {| path := file_path root (fst ip);
                    file_schema := sch;
                    file_rows := snd ip |}) (combine (seq n (length ps)) ps).
Proof.
  revert n; induction ps as [|p ps IH]; intros n; simpl; [reflexivity|].
  unfold under at 1; simpl. unfold file_path at 1. rewrite prefix_slash.
  now rewrite IH.
Qed.

Lemma fresh_directory (root : string) (fs : filesystem) :
  forallb (fun f => negb (under root f)) fs = true -> filter (under root) fs = [].
Proof.
  induction fs as [|f fs IH]; simpl; [reflexivity|].
  intros H. apply andb_true_iff in H. destruct H as [Hf Hfs].
  destruct (under root f); [discriminate | auto].
Qed.

Lemma concat_has_rows (ps : list partition) :
  concat (filter has_rows ps) = concat ps.
Proof.
  induction ps as [|p ps IH]; simpl; [reflexivity|].
  destruct p as [|r p]; simpl; [exact IH | now rewrite IH].
Qed.

Lemma has_rows_some (ps : list partition) :
  concat ps <> [] -> filter has_rows ps <> [].
Proof.
  intros H E. apply H. now rewrite <- concat_has_rows, E.
Qed.


(** Into a fresh directory: what is read back are the rows of the table
    written, if it has any. *)
Lemma read_after_write (root : string) (df : DataFrame) (fs : filesystem) :
  forallb (fun f => negb (under root f)) fs = true ->
  rows df <> [] ->
  read_parquet root (snd (write_parquet root df fs)) =
  Ok {| schema := schema df; partitions := [rows df] |}.
Proof.
  intros Hfresh Hne. unfold read_parquet, write_parquet. cbn [snd].
  rewrite filter_app, (fresh_directory _ _ Hfresh), written_under. cbn [app].
  pose proof (has_rows_some (partitions df) Hne) as Hsome.
  assert (Hall : rows df = concat (filter has_rows (partitions df)))
    by (symmetry; apply concat_has_rows).
  rewrite Hall.
  destruct (filter has_rows (partitions df)) as [|p ps]; [congruence|].
  simpl. now rewrite written_rows.
Qed.


(* ================================================================== *)
(** ** The batched transform *)

Section ClassifyImageProperties.

Import ClassifyImage.

Variable score : Type.
Variable score_ltb : score -> score -> bool.
Variable ftensor : Type.
Variable softmax0 : list (list score) -> list (list score).
Variable self : ClassifyImage.t score ftensor.

Lemma argmax_from_lt (row : list score) :
  forall best besti i, besti < i ->
    argmax_from score_ltb best besti i row < i + length row.
Proof.
  induction row as [|x row IH]; intros best besti i Hlt; simpl.
  - lia.
  - destruct (score_ltb best x).
    + specialize (IH x i (S i)). lia.
    + specialize (IH best besti (S i)). lia.
Qed.

Lemma argmax_row_lt (row : list score) :
  0 < length row ->
  exists j, argmax_row score_ltb row = Ok j /\ j < length row.
Proof.
  destruct row as [|x row]; simpl; [lia|]. intros _.
  eexists; split; [reflexivity|].
  pose proof (argmax_from_lt row x (besti := 0) (i := 1)). lia.
Qed.

Lemma well_shaped_spec m k (y : list (list score)) :
  well_shaped m k y = true <->
  length y = m /\ Forall (fun row => length row = k) y.
Proof.
  unfold well_shaped.
  rewrite andb_true_iff, Nat.eqb_eq, forallb_forall, Forall_forall.
  split; intros [H1 H2]; split; auto; intros row Hin.
  - now apply Nat.eqb_eq, H2.
  - now apply Nat.eqb_eq, H2.
Qed.

Lemma cast_all_ok shp (images : series) :
  forallb (is_tensor_of shp) images = true ->
  exists arrays,
    mapM_res (cast_uint8_tensor shp) images = Ok arrays /\
    length arrays = length images.
Proof.
  intros H.
  destruct (mapM_res_total (cast_uint8_tensor shp) (fun _ => True) (l := images))
    as (arrays & Ha & Hlen & _).
  - apply Forall_forall. intros v Hv.
    rewrite forallb_forall in H. specialize (H v Hv).
    destruct v; simpl in H; try discriminate.
    simpl. rewrite H. eauto.
  - eauto.
Qed.

Lemma permute_batch_ok h w c (arrays : list tensor) :
  arrays <> [] ->
  exists x, permute_0_3_1_2 (np_array [h; w; c] arrays) = Ok x /\
            shape x = [length arrays; c; h; w].
Proof.
  destruct arrays as [|a arrays]; [congruence|]. intros _.
  unfold permute_0_3_1_2; simpl. eexists; split; reflexivity.
Qed.

(** Class ids below [k] index every row of [k] scores and every list of
    [k] labels. *)
Lemma index_columns_ok k (prediction : list (list score)) (class_ids : list nat) :
  Forall (fun row => length row = k) prediction ->
  Forall (fun j => j < k) class_ids ->
  exists scores, index_columns prediction class_ids = Ok scores.
Proof.
  intros Hrows Hids.
  destruct (mapM_res_total
              (fun row => mapM_res (fun j => of_option IndexError (nth_error row j)) class_ids)
              (fun _ => True) (l := prediction)) as (scores & Hs & _).
  - eapply Forall_impl; [|exact Hrows]. intros row Hrow.
    destruct (mapM_res_total (fun j => of_option IndexError (nth_error row j))
                (fun _ => True) (l := class_ids)) as (r & Hr & _).
    + eapply Forall_impl; [|exact Hids]. intros j Hj. cbv beta in *.
      destruct (nth_error row j) eqn:E.
      * simpl; eauto.
      * apply nth_error_None in E. lia.
    + eauto.
  - eauto.
Qed.

Lemma labels_ok (class_ids : list nat) :
  Forall (fun j => j < length (category_map self)) class_ids ->
  exists labels,
    mapM_res (fun class_id =>
                of_option IndexError (nth_error (category_map self) class_id))
             class_ids = Ok labels /\
    length labels = length class_ids /\
    Forall (fun l => In l (category_map self)) labels.
Proof.
  intros Hids. apply mapM_res_total.
  eapply Forall_impl; [|exact Hids]. intros j Hj. cbv beta in *.
  destruct (nth_error (category_map self) j) eqn:E.
  - exists s; split; [reflexivity|]. eapply nth_error_In; eauto.
  - apply nth_error_None in E. lia.
Qed.

(** C1. For a batch of m >= 1 arrays of one fixed shape (height, width,
    channels), given a network that yields one row of scores per image
    and one score per label of a non-empty category map,
    [ClassifyImage.__call__] returns exactly m labels, each of them an
    entry of the category map. *)
Theorem call_returns_one_label_per_image (images : series) (h w c : nat) :
  1 <= length images ->
  forallb (is_tensor_of [h; w; c]) images = true ->
  category_map self <> [] ->
  (forall x n, shape x = [n; c; h; w] ->
     well_shaped n (length (category_map self))
       (softmax0 (model self (preprocess self x))) = true) ->
  exists labels,
    __call__ score_ltb softmax0 self images [h; w; c] = Ok labels /\
    length labels = length images /\
    Forall (fun l => In l (category_map self)) labels.
Proof.
  intros Hm Himages Hcat Hnet.
  unfold __call__.
  destruct (Nat.eqb_spec (length images) 0) as [E|_]; [lia|].
  destruct (cast_all_ok _ _ Himages) as (arrays & -> & Hlen); simpl.
  assert (Hne : arrays <> []) by (destruct arrays; simpl in *; [lia | congruence]).
  destruct (permute_batch_ok h w c Hne) as (x & -> & Hx); simpl.
  specialize (Hnet x _ Hx). apply well_shaped_spec in Hnet.
  destruct Hnet as [Hrows Hcols].
  set (prediction := softmax0 (model self (preprocess self x))) in *.
  assert (Hk : 0 < length (category_map self))
    by (destruct (category_map self); simpl; [congruence | lia]).
  destruct (mapM_res_total (argmax_row score_ltb)
              (fun j => j < length (category_map self)) (l := prediction))
    as (class_ids & Hids & Hidlen & Hbound).
  { eapply Forall_impl; [|exact Hcols]. intros row Hrow. cbv beta in *.
    destruct (argmax_row_lt row) as (j & Hj & Hlt); [lia|].
    exists j; split; [assumption | lia]. }
  unfold argmax1. rewrite Hids; simpl.
  destruct (index_columns_ok Hcols Hbound) as (scores & ->); simpl.
  destruct (labels_ok Hbound) as (labels & -> & Hlab & Hin).
  exists labels; repeat split; auto. lia.
Qed.

(** C2. On the empty batch [ClassifyImage.__call__] returns the empty
    list; no exception of any kind is raised. *)
Theorem call_on_empty_batch (shp : list nat) :
  __call__ score_ltb softmax0 self [] shp = Ok [].
Proof. reflexivity. Qed.

(** The guard is what makes the empty batch safe: the stacked array of
    no images has one dimension, which [permute] rejects. *)
Remark permute_rejects_empty_stack (shp : list nat) :
  permute_0_3_1_2 (np_array shp []) = Err RuntimeError.
Proof. reflexivity. Qed.

End ClassifyImageProperties.

(* ================================================================== *)
(** ** Limit, filter and repartitioning *)

Lemma rows_filter_rows (f : row -> bool) (df : DataFrame) :
  rows (filter_rows f df) = filter f (rows df).
Proof. apply concat_map_filter. Qed.

Lemma rows_map_rows (c : string) (f : row -> value) (df : DataFrame) :
  rows (map_rows c f df) = map (fun r => set c (f r) r) (rows df).
Proof. unfold rows, map_rows; simpl. symmetry. apply concat_map. Qed.

Lemma filter_rows_idempotent (f : row -> bool) (df : DataFrame) :
  filter_rows f (filter_rows f df) = filter_rows f df.
Proof.
  unfold filter_rows; simpl. f_equal. rewrite map_map.
  apply map_ext. intros p. apply filter_idempotent.
Qed.

(** C4. Limiting a table to N rows and counting yields the smaller of N
    and the original row count. *)
Theorem limit_then_count (n : nat) (df : DataFrame) :
  count_rows (limit n df) = Nat.min n (count_rows df).
Proof. unfold count_rows. rewrite limit_rows. apply length_firstn. Qed.

(** C6. Repartitioning into k >= 1 partitions succeeds, yields k
    partitions, and keeps the rows: same row count, same multiset of rows
    (indeed the same sequence), same schema. *)
Theorem into_partitions_preserves_rows (k : nat) (df : DataFrame) :
  1 <= k ->
  exists df',
    into_partitions k df = Ok df' /\
    length (partitions df') = k /\
    count_rows df' = count_rows df /\
    Permutation (rows df') (rows df) /\
    schema df' = schema df.
Proof.
  intros Hk. unfold into_partitions.
  destruct (Nat.eqb_spec k 0) as [E|_]; [lia|].
  exists {| schema := schema df; partitions := split_even k (rows df) |}.
  assert (Hrows : rows {| schema := schema df; partitions := split_even k (rows df) |}
                  = rows df)
    by (unfold rows at 1; simpl; now apply split_even_concat).
  split; [reflexivity|]. repeat split.
  - simpl. apply split_even_length.
  - unfold count_rows. now rewrite Hrows.
  - now rewrite Hrows.
Qed.

Section FilterProperties.

Variable download : string -> res (list byte).
Variable decode : list byte -> res tensor.
Variable resample : nat -> nat -> tensor -> list Z.

Local Abbreviation eval_row' := (eval_row download decode resample).
Local Abbreviation holds' := (holds download decode resample).
Local Abbreviation decides' := (decides download decode resample).
Local Abbreviation where' := (where_ download decode resample).

Lemma length_is_1_row (c : string) (r : row) (l : list object_struct) :
  get c r = Some (VList l) ->
  eval_row' r (length_is_1 c) = Ok (VBool (Z.eqb (Z.of_nat (length l)) 1)).
Proof. intros H. simpl. rewrite H. reflexivity. Qed.

Lemma length_is_1_holds (c : string) (r : row) :
  holds' (length_is_1 c) r = true <->
  exists l, get c r = Some (VList l) /\ length l = 1.
Proof.
  unfold holds; simpl. split.
  - destruct (get c r) as [[]|]; simpl; try discriminate.
    intros H. apply Z.eqb_eq in H. exists l; split; [reflexivity | lia].
  - intros (l & -> & Hl). simpl. rewrite Hl. reflexivity.
Qed.

Lemma length_is_1_resolves (c : string) (sch : list string) :
  has_column sch c = true -> resolve sch (length_is_1 c) = Ok tt.
Proof. intros H. unfold resolve, resolve_columns; simpl. now rewrite H. Qed.

Lemma list_valued_decides (c : string) (df : DataFrame) :
  list_valued c df = true ->
  has_column (schema df) c = true /\ Forall (decides' (length_is_1 c)) (rows df).
Proof.
  unfold list_valued. rewrite andb_true_iff, forallb_forall, Forall_forall.
  intros [Hc H]; split; [assumption|]. intros r Hr. specialize (H r Hr).
  destruct (get c r) as [[]|] eqn:E; try discriminate.
  eexists. apply length_is_1_row. exact E.
Qed.

(** C5. On a table with a list-valued column, the filter keeping the
    rows whose list has length 1 succeeds, and applying it to its own
    result returns that result unchanged. *)
Theorem length_filter_idempotent (c : string) (df : DataFrame) :
  list_valued c df = true ->
  exists df1,
    where' (length_is_1 c) df = (Ok df1, []) /\
    where' (length_is_1 c) df1 = (Ok df1, []).
Proof.
  intros H. apply list_valued_decides in H. destruct H as [Hc F].
  exists (filter_rows (holds' (length_is_1 c)) df). split.
  - apply where_exact; [reflexivity | now apply length_is_1_resolves | exact F].
  - rewrite where_exact.
    + now rewrite filter_rows_idempotent.
    + reflexivity.
    + now apply length_is_1_resolves.
    + rewrite rows_filter_rows. clear Hc.
      induction F as [|r rs Hr _ IH]; simpl; [constructor|].
      destruct (holds' (length_is_1 c) r); [constructor|]; assumption.
Qed.

End FilterProperties.

(* ================================================================== *)
(** ** The pipeline, stage by stage *)

Lemma Forall2_Forall_transfer A B (R : A -> B -> Prop) (P : A -> Prop) (Q : B -> Prop) l l' :
  Forall2 R l l' -> Forall P l -> (forall a b, P a -> R a b -> Q b) -> Forall Q l'.
Proof.
  induction 1 as [|a b l l' Hab _ IH]; intros F H; constructor.
  - inversion F; subst. eauto.
  - inversion F; subst. apply IH; auto.
Qed.

Lemma written_files (root : string) (df : DataFrame) (fs : filesystem) :
  exists files,
    write_parquet root df fs = (map path files, fs ++ files) /\
    Forall (fun f => file_schema f = schema df /\ In (file_rows f) (partitions df)) files.
Proof.
  unfold write_parquet. eexists; split; [reflexivity|].
  assert (G : forall (ps : list partition) (n : nat),
             Forall (fun f => file_schema f = schema df /\ In (file_rows f) ps)
                    (map (fun ip => {| path := file_path root (fst ip);
                                       file_schema := schema df;
                                       file_rows := snd ip |})
                         (combine (seq n (length ps)) ps))).
  { induction ps as [|p ps IH]; intros n; simpl.
    - constructor.
    - constructor; [simpl; auto|].
      eapply Forall_impl; [|apply IH]. intros f [H1 H2]; simpl in *; auto. }
  eapply Forall_impl; [|apply G].
  intros f [H1 H2]. split; [exact H1|].
  apply filter_In in H2. tauto.
Qed.

Section PipelineProperties.

Variable download : string -> res (list byte).
Variable decode : list byte -> res tensor.
Variable resample : nat -> nat -> tensor -> list Z.
Variable classify : series -> list nat -> res series.

Local Abbreviation eval_row' := (eval_row download decode resample).
Local Abbreviation holds' := (holds download decode resample).
Local Abbreviation where' := (where_ download decode resample).
Local Abbreviation with_column' := (with_column download decode resample).
Local Abbreviation has_image' := (has_image download decode).
Local Abbreviation has_resized' := (has_resized resample).
Local Abbreviation preprocessed_row' := (preprocessed_row download decode resample).
Local Abbreviation prepared_row' := (prepared_row download decode resample).
Local Abbreviation result_row' := (result_row download decode).
Local Abbreviation prune' := (prune download decode resample).
Local Abbreviation preprocess_images' := (preprocess_images download decode resample).
Local Abbreviation filter_channels' := (filter_channels download decode resample).
Local Abbreviation infer' := (infer download decode resample classify).
Local Abbreviation prepared' := (prepared download decode resample).
Local Abbreviation intermediate' := (intermediate download decode resample classify).
Local Abbreviation results' := (results download decode resample classify).
Local Abbreviation run' := (run download decode resample classify).
Local Abbreviation run_and_read' := (run_and_read download decode resample classify).

(** *** How each operation carries a fact about every row *)

Lemma with_column_inv (c : string) (e : expr) (df df' : DataFrame) (P Q : row -> Prop) :
  udf_free e = true ->
  fst (with_column' c e df) = Ok df' ->
  Forall P (rows df) ->
  (forall r v, P r -> eval_row' r e = Ok v -> Q (set c v r)) ->
  Forall Q (rows df').
Proof.
  intros Hfree H F Hstep.
  apply with_column_sound in H; [|assumption]. destruct H as (_ & Hev & ->).
  rewrite rows_map_rows. apply Forall_map.
  rewrite Forall_forall in *. intros r Hr.
  destruct (Hev r Hr) as (v & Hv). unfold value_of. rewrite Hv. eauto.
Qed.

Lemma where_inv (e : expr) (df df' : DataFrame) (P Q : row -> Prop) :
  udf_free e = true ->
  fst (where' e df) = Ok df' ->
  Forall P (rows df) ->
  (forall r, P r -> holds' e r = true -> Q r) ->
  Forall Q (rows df').
Proof.
  intros Hfree H F Hstep.
  apply where_sound in H; [|assumption]. destruct H as (_ & _ & ->).
  rewrite rows_filter_rows. rewrite Forall_forall in *.
  intros r Hr. apply filter_In in Hr. destruct Hr; auto.
Qed.

Lemma udf_inv (c c0 : string) (f : series -> list nat -> res series) (shp : list nat)
      (df df' : DataFrame) (P Q : row -> Prop) :
  fst (with_column' c (udf f (col c0) shp) df) = Ok df' ->
  Forall P (rows df) ->
  (forall r v, P r -> Q (set c v r)) ->
  Forall Q (rows df').
Proof.
  intros H F Hstep. apply with_column_udf_rows in H.
  eapply Forall2_Forall_transfer; [exact H | exact F|].
  intros r r' Hr (v & ->). auto.
Qed.

Lemma select_inv (cols : list string) (df df' : DataFrame) (P Q : row -> Prop) :
  fst (select cols df) = Ok df' ->
  Forall P (rows df) ->
  (forall r r', P r -> project_row cols r = Ok r' -> Q r') ->
  Forall Q (rows df').
Proof.
  intros H F Hstep. apply select_sound in H. destruct H as [_ H].
  eapply Forall2_Forall_transfer; [exact H | exact F | exact Hstep].
Qed.

(** *** What each expression of the notebook computes on a row *)

Lemma url_row (r : row) (v : value) :
  eval_row' r image_url_expr = Ok v <->
  exists fn, get "filename" r = Some (VStr fn) /\ v = VStr (image_url_of fn).
Proof.
  unfold image_url_expr, image_url_of. simpl.
  destruct (get "filename" r) as [[fn| | | | |]|]; simpl; split;
    try discriminate; try (intros (fn' & Hfn & _); discriminate).
  - intros H; injection H as <-. eauto.
  - intros (fn' & Hfn & ->). injection Hfn as <-. reflexivity.
Qed.

Lemma image_row (r : row) (v : value) :
  eval_row' r (image_decode (url_download (col "image_url"))) = Ok v <->
  exists url b t, get "image_url" r = Some (VStr url) /\
                  download url = Ok b /\ decode b = Ok t /\ v = VImage t.
Proof.
  simpl. split.
  - destruct (get "image_url" r) as [[url| | | | |]|]; simpl; try discriminate.
    destruct (download url) as [b|] eqn:Hb; simpl; try discriminate.
    destruct (decode b) as [t|] eqn:Ht; simpl; try discriminate.
    intros H; injection H as <-. exists url, b, t. auto.
  - intros (url & b & t & -> & Hb & Ht & ->). simpl. rewrite Hb. simpl.
    rewrite Ht. reflexivity.
Qed.

Lemma resize_row (w h : nat) (r : row) (v : value) :
  eval_row' r (image_resize w h (col "image")) = Ok v <->
  exists t h0 w0 ch,
    get "image" r = Some (VImage t) /\ shape t = [h0; w0; ch] /\
    v = VImage {| shape := [h; w; ch]; data := resample w h t |}.
Proof.
  simpl. split.
  - destruct (get "image" r) as [[| | | | |t]|]; simpl; try discriminate.
    destruct (shape t) as [|h0 [|w0 [|ch [|]]]] eqn:Hs; try discriminate.
    intros H; injection H as <-. exists t, h0, w0, ch. auto.
  - intros (t & h0 & w0 & ch & -> & Hs & ->). simpl. rewrite Hs. reflexivity.
Qed.

Lemma channels_row (r : row) :
  holds' (apply channels_is_3 (col "image")) r = true <->
  three_channels r.
Proof.
  unfold holds, three_channels. cbn -[nth_error]. split.
  - destruct (get "image" r) as [[| | | | |t]|]; cbn -[nth_error]; try discriminate.
    destruct (nth_error (shape t) 2) as [ch|] eqn:Hc; try discriminate.
    intros H. apply Nat.eqb_eq in H. subst ch. eauto.
  - intros (t & -> & Hc). cbn -[nth_error]. rewrite Hc. reflexivity.
Qed.


(** *** Facts survive the derivation of other columns *)

Lemma has_object_set (c : string) (v : value) (r : row) :
  String.eqb c "object" = false -> has_object r -> has_object (set c v r).
Proof.
  intros Hc (l & H1 & H2). exists l. now rewrite get_set_other by assumption.
Qed.

Lemma has_url_set (c : string) (v : value) (r : row) :
  String.eqb c "filename" = false -> String.eqb c "image_url" = false ->
  has_url r -> has_url (set c v r).
Proof.
  intros Hf Hu (fn & H1 & H2). exists fn. now rewrite !get_set_other by assumption.
Qed.

Lemma has_image_set (c : string) (v : value) (r : row) :
  String.eqb c "image_url" = false -> String.eqb c "image" = false ->
  has_image' r -> has_image' (set c v r).
Proof.
  intros Hu Hi (url & b & t & H1 & H2 & H3 & H4). exists url, b, t.
  now rewrite !get_set_other by assumption.
Qed.

Lemma has_resized_set (c0 : string) (w h : nat) (c : string) (v : value) (r : row) :
  String.eqb c "image" = false -> String.eqb c c0 = false ->
  has_resized' c0 w h r -> has_resized' c0 w h (set c v r).
Proof.
  intros Hi Hc (t & h0 & w0 & ch & H1 & H2 & H3). exists t, h0, w0, ch.
  now rewrite !get_set_other by assumption.
Qed.

Lemma three_channels_set (c : string) (v : value) (r : row) :
  String.eqb c "image" = false -> three_channels r -> three_channels (set c v r).
Proof.
  intros Hi (t & H1 & H2). exists t. now rewrite get_set_other by assumption.
Qed.

Lemma prepared_row_set (c : string) (v : value) (r : row) :
  forallb (fun k => negb (String.eqb c k))
    ["object"; "filename"; "image_url"; "image";
     "image_resized_small"; "image_resized_large"] = true ->
  prepared_row' r -> prepared_row' (set c v r).
Proof.
  intros Hc (H1 & H2 & H3 & H4 & H5 & H6).
  cbn [forallb] in Hc. rewrite !andb_true_iff, !negb_true_iff in Hc.
  destruct Hc as (? & ? & ? & ? & ? & ? & _).
  repeat split;
    auto using has_object_set, has_url_set, has_image_set, has_resized_set,
               three_channels_set.
Qed.

(** *** The stages *)

Lemma prune_rows (t df : DataFrame) :
  fst (prune' t) = Ok df -> Forall has_object (rows df).
Proof.
  intros H. unfold prune in H.
  eapply where_inv with (P := fun _ => True); [| exact H | |].
  - reflexivity.
  - apply Forall_forall; auto.
  - intros r _ Hr. now apply length_is_1_holds in Hr.
Qed.

Lemma split_rows (df df' : DataFrame) :
  fst (split df) = Ok df' ->
  rows df' = rows df /\ schema df' = schema df /\ length (partitions df') = 16.
Proof.
  unfold split, lift, into_partitions. cbn [fst Nat.eqb].
  intros H; injection H as <-.
  split; [|split; [reflexivity | apply split_even_length]].
  unfold rows at 1. cbn [partitions].
  apply (split_even_concat (k := 16)). lia.
Qed.

Lemma preprocess_rows (df df' : DataFrame) :
  fst (preprocess_images' df) = Ok df' ->
  Forall has_object (rows df) ->
  Forall preprocessed_row' (rows df').
Proof.
  intros H F. unfold preprocess_images in H.
  apply bind_Ok in H. destruct H as (df1 & H1 & H).
  apply bind_Ok in H. destruct H as (df2 & H2 & H).
  apply bind_Ok in H. destruct H as (df3 & H3 & H4).
  assert (F1 : Forall (fun r => has_object r /\ has_url r) (rows df1)).
  { eapply with_column_inv; [| exact H1 | exact F |]; [reflexivity|].
    intros r v Hr Hv. apply url_row in Hv. destruct Hv as (fn & Hfn & ->). split.
    - now apply has_object_set.
    - exists fn. rewrite get_set_same, get_set_other by reflexivity. auto. }
  assert (F2 : Forall (fun r => has_object r /\ has_url r /\ has_image' r) (rows df2)).
  { eapply with_column_inv; [| exact H2 | exact F1 |]; [reflexivity|].
    intros r v [Ho Hu] Hv. apply image_row in Hv.
    destruct Hv as (url & b & t & Hurl & Hb & Ht & ->). repeat split.
    - now apply has_object_set.
    - now apply has_url_set.
    - exists url, b, t. rewrite get_set_same, get_set_other by reflexivity. auto. }
  assert (F3 : Forall (fun r => has_object r /\ has_url r /\ has_image' r /\
                                has_resized' "image_resized_small" 32 32 r) (rows df3)).
  { eapply with_column_inv; [| exact H3 | exact F2 |]; [reflexivity|].
    intros r v (Ho & Hu & Hi) Hv. apply resize_row in Hv.
    destruct Hv as (t & h0 & w0 & ch & Ht & Hs & ->). repeat split.
    - now apply has_object_set.
    - now apply has_url_set.
    - now apply has_image_set.
    - exists t, h0, w0, ch. rewrite get_set_same, get_set_other by reflexivity. auto. }
  eapply with_column_inv; [| exact H4 | exact F3 |]; [reflexivity|].
  intros r v (Ho & Hu & Hi & Hsm) Hv. apply resize_row in Hv.
  destruct Hv as (t & h0 & w0 & ch & Ht & Hs & ->). repeat split.
  - now apply has_object_set.
  - now apply has_url_set.
  - now apply has_image_set.
  - now apply has_resized_set.
  - exists t, h0, w0, ch. rewrite get_set_same, get_set_other by reflexivity. auto.
Qed.

(** Every row the inference stages see has one object, the derived URL,
    the image that URL decodes to, with 3 channels, and both resized
    copies. *)
Lemma prepared_rows (t df : DataFrame) :
  fst (prepared' t) = Ok df -> Forall prepared_row' (rows df).
Proof.
  intros H. unfold prepared in H.
  apply bind_Ok in H. destruct H as (df1 & H1 & H).
  apply bind_Ok in H. destruct H as (df2 & H2 & H).
  apply bind_Ok in H. destruct H as (df3 & H3 & H4).
  apply prune_rows in H1. apply split_rows in H2. destruct H2 as (E & _ & _).
  rewrite <- E in H1. apply (preprocess_rows _ H3) in H1.
  unfold filter_channels in H4.
  eapply where_inv; [| exact H4 | exact H1 |]; [reflexivity|].
  intros r (Ho & Hu & Hi & Hsm & Hla) Hc. apply channels_row in Hc.
  repeat split; assumption.
Qed.

Lemma infer_rows (df df' : DataFrame) :
  fst (infer' df) = Ok df' ->
  Forall prepared_row' (rows df) -> Forall prepared_row' (rows df').
Proof.
  intros H F. unfold infer in H.
  apply bind_Ok in H. destruct H as (df1 & H1 & H2).
  eapply udf_inv with (P := prepared_row'); [exact H2 | |].
  - eapply udf_inv; [exact H1 | exact F |].
    intros r v Hr. apply prepared_row_set; [reflexivity | exact Hr].
  - intros r v Hr. apply prepared_row_set; [reflexivity | exact Hr].
Qed.

Lemma intermediate_rows (t df : DataFrame) :
  fst (intermediate' t) = Ok df -> Forall prepared_row' (rows df).
Proof.
  intros H. unfold intermediate in H.
  apply bind_Ok in H. destruct H as (df1 & H1 & H2).
  eapply infer_rows; [exact H2 | now apply prepared_rows in H1].
Qed.

Lemma some_image_inj (r : row) (c : string) (t t' : tensor) :
  get c r = Some (VImage t) -> get c r = Some (VImage t') -> t = t'.
Proof. congruence. Qed.

Lemma prepared_result_row (r r' : row) :
  prepared_row' r -> project_row projection r = Ok r' -> result_row' r'.
Proof.
  intros (Ho & Hu & Hi & _ & _ & Hc) Hp.
  assert (G : forall c, In c projection -> get c r' = get c r)
    by (intros c; now apply project_row_get).
  destruct Ho as (l & Hl & Hlen). destruct Hu as (fn & Hfn & Hurl).
  destruct Hi as (url & b & t & Hurl' & Hb & Ht & Himg).
  destruct Hc as (t' & Himg' & Hch).
  rewrite (some_image_inj _ _ Himg Himg') in Ht.
  repeat split.
  - exists l. rewrite G by (simpl; auto). auto.
  - exists fn. rewrite !G by (simpl; auto). auto.
  - exists url, b, t'. rewrite G by (simpl; auto). auto.
Qed.

Lemma results_rows (t df : DataFrame) :
  fst (results' t) = Ok df ->
  schema df = projection /\ Forall result_row' (rows df).
Proof.
  intros H. unfold results in H.
  apply bind_Ok in H. destruct H as (df1 & H1 & H2).
  split; [now apply select_sound in H2|].
  eapply select_inv; [exact H2 | apply (intermediate_rows _ H1) |].
  intros r r'. apply prepared_result_row.
Qed.


(** *** Logs: which batches reach the batched transform *)

Lemma preprocess_silent (df : DataFrame) : snd (preprocess_images' df) = [].
Proof.
  unfold preprocess_images.
  rewrite snd_bind, with_column_silent by reflexivity. cbn [app].
  destruct (fst (with_column' "image_url" image_url_expr df)) as [df1|]; [|reflexivity].
  rewrite snd_bind, with_column_silent by reflexivity. cbn [app].
  destruct (fst (with_column' "image" _ df1)) as [df2|]; [|reflexivity].
  rewrite snd_bind, with_column_silent by reflexivity. cbn [app].
  destruct (fst (with_column' "image_resized_small" _ df2)) as [df3|]; [|reflexivity].
  now apply with_column_silent.
Qed.

Lemma prepared_silent (t : DataFrame) : snd (prepared' t) = [].
Proof.
  unfold prepared, prune.
  rewrite snd_bind, where_silent by reflexivity. cbn [app].
  destruct (fst (where' object_length_is_1 (limit NUM_ROWS t))) as [df1|]; [|reflexivity].
  rewrite snd_bind. change (snd (split df1)) with (@nil call). cbn [app].
  destruct (fst (split df1)) as [df2|]; [|reflexivity].
  rewrite snd_bind, preprocess_silent. cbn [app].
  destruct (fst (preprocess_images' df2)) as [df3|]; [|reflexivity].
  unfold filter_channels. now apply where_silent.
Qed.

Lemma column_tensors (c : string) (shp : list nat) (p : partition) (x : series) :
  column c p = Ok x ->
  Forall (holds_tensor c shp) p ->
  forallb (is_tensor_of shp) x = true.
Proof.
  intros H F. apply mapM_res_Forall2 in H.
  induction H as [|r v p x Hv _ IH]; [reflexivity|].
  inversion F as [|? ? (t & Ht & Hs) F']; subst. simpl.
  rewrite Ht in Hv. simpl in Hv. injection Hv as <-. simpl.
  rewrite (proj2 (shape_eqb_eq (shape t) (shape t)) eq_refl). simpl. auto.
Qed.

Lemma prepared_small (r : row) :
  prepared_row' r -> holds_tensor "image_resized_small" [32; 32; 3] r.
Proof.
  intros (_ & _ & _ & (t & h0 & w0 & ch & Ht & Hs & Hr) & _ & (t' & Ht' & Hc)).
  rewrite <- (some_image_inj _ _ Ht Ht'), Hs in Hc. simpl in Hc. injection Hc as ->.
  eexists; split; [exact Hr | reflexivity].
Qed.

Lemma prepared_large (r : row) :
  prepared_row' r -> holds_tensor "image_resized_large" [256; 256; 3] r.
Proof.
  intros (_ & _ & _ & _ & (t & h0 & w0 & ch & Ht & Hs & Hr) & (t' & Ht' & Hc)).
  rewrite <- (some_image_inj _ _ Ht Ht'), Hs in Hc. simpl in Hc. injection Hc as ->.
  eexists; split; [exact Hr | reflexivity].
Qed.

Lemma udf_stage_log (c c0 : string) (shp : list nat) (df : DataFrame) :
  Forall (holds_tensor c0 shp) (rows df) ->
  nth_error shp 2 = Some 3 ->
  Forall batch_ok (snd (with_column' c (udf classify (col c0) shp) df)).
Proof.
  intros F Hshp. eapply Forall_impl; [|apply with_column_udf_log].
  intros cl (p & Hp & Hcol & Hs). unfold batch_ok. rewrite Hs. split; [|assumption].
  apply (column_tensors Hcol).
  apply Forall_concat in F. rewrite Forall_forall in F. now apply F.
Qed.

Lemma infer_log (df : DataFrame) :
  Forall prepared_row' (rows df) -> Forall batch_ok (snd (infer' df)).
Proof.
  intros F. unfold infer. rewrite snd_bind. apply Forall_app; split.
  - apply udf_stage_log; [|reflexivity].
    eapply Forall_impl; [|exact F]. apply prepared_small.
  - destruct (fst (with_column' "predictions_lowres" _ df)) as [df1|] eqn:E;
      [|constructor].
    apply udf_stage_log; [|reflexivity].
    eapply udf_inv; [exact E | exact F |].
    intros r v Hr. apply prepared_large. now apply prepared_row_set.
Qed.

(** Whether or not the job completes, every batch handed to the
    classifier holds arrays of the declared shape, with 3 channels. *)
Lemma run_log (t : DataFrame) (fs : filesystem) :
  Forall batch_ok (snd (run' t fs)).
Proof.
  unfold run. rewrite snd_bind. apply Forall_app; split.
  - unfold results. rewrite snd_bind. apply Forall_app; split.
    + unfold intermediate. rewrite snd_bind, prepared_silent. cbn [app].
      destruct (fst (prepared' t)) as [df|] eqn:E; [|constructor].
      apply infer_log. now apply prepared_rows in E.
    + destruct (fst (intermediate' t)); [|constructor].
      rewrite select_silent. constructor.
  - destruct (fst (results' t)); constructor.
Qed.

Lemma run_sound (t : DataFrame) (fs : filesystem) (paths : list string) (fs' : filesystem) :
  fst (run' t fs) = Ok (paths, fs') ->
  exists df files,
    fst (results' t) = Ok df /\
    fs' = fs ++ files /\ map path files = paths /\
    Forall (fun f => file_schema f = schema df /\ In (file_rows f) (partitions df)) files.
Proof.
  intros H. unfold run in H. apply bind_Ok in H. destruct H as (df & Hdf & H).
  destruct (written_files results_path df fs) as (files & Hw & Hfiles).
  simpl in H. rewrite Hw in H. injection H as <- <-.
  exists df, files. auto.
Qed.

(** *** Properties of the pipeline *)

(** C8. In every row of the table the inference stages consume, and of
    the table they produce (the last table before the projection),
    image_resized_small holds an array of shape 32x32x3 and
    image_resized_large one of shape 256x256x3. *)
Theorem resized_columns_have_fixed_shape (t df : DataFrame) :
  fst (prepared' t) = Ok df \/ fst (intermediate' t) = Ok df ->
  Forall (fun r => holds_tensor "image_resized_small" [32; 32; 3] r /\
                   holds_tensor "image_resized_large" [256; 256; 3] r) (rows df).
Proof.
  intros H.
  assert (F : Forall prepared_row' (rows df))
    by (destruct H as [H|H]; [now apply prepared_rows in H
                             | now apply intermediate_rows in H]).
  eapply Forall_impl; [|exact F]. intros r Hr.
  split; [now apply prepared_small | now apply prepared_large].
Qed.

(** C9. In every row of the pipeline's table (before the projection and
    after it) image_url is the images prefix, then the row's filename,
    then ".jpeg". *)
Theorem image_url_is_concatenation (t df : DataFrame) :
  fst (intermediate' t) = Ok df \/ fst (results' t) = Ok df ->
  Forall (fun r => exists fn,
            get "filename" r = Some (VStr fn) /\
            get "image_url" r =
              Some (VStr ("s3://daft-public-datasets/imagenet/val-10k-sample-deltalake/images/"
                          ++ fn ++ ".jpeg")%string)) (rows df).
Proof.
  intros H.
  assert (F : Forall has_url (rows df)).
  { destruct H as [H|H].
    - apply intermediate_rows in H. eapply Forall_impl; [|exact H].
      now intros r (_ & Hu & _).
    - apply results_rows in H. destruct H as [_ H].
      eapply Forall_impl; [|exact H]. now intros r (_ & Hu & _). }
  eapply Forall_impl; [|exact F]. intros r (fn & Hfn & Hurl).
  exists fn; split; [assumption|]. rewrite Hurl. unfold image_url_of.
  now rewrite append_assoc.
Qed.

(** C10. The channel filter runs before inference: every row of the
    table the inference stages consume has a decoded image with exactly
    3 channels, every batch passed to the classifier (in any run,
    completed or not) consists of arrays of the declared shape with
    channel dimension 3, and every row of every file written has an
    object list of length 1 and a URL whose decoded image has 3
    channels. *)
Theorem inference_sees_three_channels (t : DataFrame) (fs : filesystem) :
  Forall batch_ok (snd (run' t fs)) /\
  (forall df, fst (prepared' t) = Ok df -> Forall three_channels (rows df)) /\
  (forall paths fs',
      fst (run' t fs) = Ok (paths, fs') ->
      exists files,
        fs' = fs ++ files /\ map path files = paths /\
        Forall (fun f => Forall result_row' (file_rows f)) files).
Proof.
  split; [apply run_log|]. split.
  - intros df H. apply prepared_rows in H.
    eapply Forall_impl; [|exact H]. now intros r (_ & _ & _ & _ & _ & Hc).
  - intros paths fs' H. apply run_sound in H.
    destruct H as (df & files & Hdf & Hfs & Hpaths & Hfiles).
    apply results_rows in Hdf. destruct Hdf as [_ Hrows].
    exists files. repeat split; try assumption.
    eapply Forall_impl; [|exact Hfiles]. intros f [_ Hin].
    apply Forall_concat in Hrows. rewrite Forall_forall in Hrows. now apply Hrows.
Qed.

End PipelineProperties.

(* ================================================================== *)
(** ** Runs that complete *)

Lemma Forall2_map_r A B C (P : A -> B -> Prop) (Q : A -> C -> Prop) (f : B -> C) l l' :
  Forall2 P l l' -> (forall a b, P a b -> Q a (f b)) -> Forall2 Q l (map f l').
Proof. induction 1; intros H'; simpl; constructor; auto. Qed.

Lemma Forall2_chain A B C (P : A -> B -> Prop) (R : B -> C -> Prop) (Q : A -> C -> Prop)
      l m n :
  Forall2 P l m -> Forall2 R m n -> (forall a b c, P a b -> R b c -> Q a c) ->
  Forall2 Q l n.
Proof.
  intros HP; revert n. induction HP as [|a b l m Hab _ IH]; intros n HR H';
    inversion HR; subst; constructor; eauto.
Qed.

Lemma filter_all A (f : A -> bool) (l : list A) :
  Forall (fun a => f a = true) l -> filter f l = l.
Proof. induction 1 as [|a l Ha _ IH]; simpl; [|rewrite Ha, IH]; reflexivity. Qed.

Lemma has_column_extend (sch : list string) (c c' : string) :
  has_column (extend_schema sch c) c' = has_column sch c' || String.eqb c' c.
Proof.
  unfold extend_schema. destruct (has_column sch c) eqn:E.
  - destruct (String.eqb_spec c' c) as [->|_].
    + now rewrite E.
    + now rewrite orb_false_r.
  - unfold has_column. rewrite existsb_app. simpl. now rewrite orb_false_r.
Qed.

Lemma resolve_single (sch : list string) (e : expr) (c : string) :
  columns_of e = [c] -> has_column sch c = true -> resolve sch e = Ok tt.
Proof. intros He Hc. unfold resolve, resolve_columns. rewrite He. simpl. now rewrite Hc. Qed.

Lemma resolve_columns_ok (sch cols : list string) :
  forallb (has_column sch) cols = true -> resolve_columns sch cols = Ok tt.
Proof.
  unfold resolve_columns. induction cols as [|c cols IH]; simpl; [reflexivity|].
  intros H. apply andb_true_iff in H. destruct H as [Hc H]. rewrite Hc. simpl. auto.
Qed.

Lemma select_partitions (cols : list string) (df df' : DataFrame) :
  fst (select cols df) = Ok df' -> length (partitions df') = length (partitions df).
Proof.
  intros H. unfold select in H.
  apply bind_Ok in H. destruct H as ([] & _ & H).
  apply bind_Ok in H. destruct H as (ps & Hps & H). simpl in Hps, H.
  injection H as <-. simpl. now apply mapM_res_length in Hps.
Qed.

Section CompleteRuns.

Variable download : string -> res (list byte).
Variable decode : list byte -> res tensor.
Variable resample : nat -> nat -> tensor -> list Z.

Local Abbreviation eval_row' := (eval_row download decode resample).
Local Abbreviation holds' := (holds download decode resample).
Local Abbreviation where' := (where_ download decode resample).
Local Abbreviation with_column' := (with_column download decode resample).


Lemma carried_set (cols : list string) (a r : row) (c : string) (v : value) :
  String.eqb c "filename" = false ->
  carried cols a r -> carried (c :: cols) a (set c v r).
Proof.
  intros Hc [Hfn Hcols]. split.
  - now rewrite get_set_other by assumption.
  - constructor.
    + exists v. apply get_set_same.
    + eapply Forall_impl; [|exact Hcols]. intros c' (u & Hu). unfold present.
      destruct (String.eqb_spec c c') as [<-|Hne].
      * rewrite get_set_same. eauto.
      * rewrite get_set_other by now apply String.eqb_neq. eauto.
Qed.

Lemma carried_present (cols : list string) (a r : row) (c : string) :
  carried cols a r -> In c cols -> present c r.
Proof. intros [_ H] Hin. rewrite Forall_forall in H. auto. Qed.

Lemma tracked_column (sch cols : list string) (c : string) :
  forallb (has_column sch) cols = true -> In c cols -> has_column sch c = true.
Proof. intros H Hin. rewrite forallb_forall in H. auto. Qed.

Lemma extend_tracked (sch cols : list string) (c : string) :
  forallb (has_column sch) cols = true ->
  forallb (has_column (extend_schema sch c)) (c :: cols) = true.
Proof.
  intros H. simpl. rewrite has_column_extend, String.eqb_refl, orb_true_r. simpl.
  rewrite forallb_forall in *. intros c' Hc'.
  rewrite has_column_extend, (H c' Hc'). reflexivity.
Qed.

Lemma with_column_total (c : string) (e : expr) (cin : string)
      (rs0 : list row) (cols : list string) (E E' : row -> Prop) (n : nat)
      (df : DataFrame) :
  udf_free e = true -> columns_of e = [cin] -> In cin cols ->
  String.eqb c "filename" = false ->
  tracks rs0 cols E n df ->
  (forall a r, carried cols a r -> E r ->
               exists v, eval_row' r e = Ok v /\ E' (set c v r)) ->
  exists df', fst (with_column' c e df) = Ok df' /\ tracks rs0 (c :: cols) E' n df'.
Proof.
  intros Hfree Hcols Hin Hc (F & Hn & Hsch) Hstep.
  exists (map_rows c (value_of download decode resample e) df).
  rewrite with_column_exact.
  - split; [reflexivity|]. repeat split.
    + rewrite rows_map_rows. eapply Forall2_map_r; [exact F|].
      intros a r [Hcar HE]. destruct (Hstep a r Hcar HE) as (v & Hv & HE').
      unfold value_of. rewrite Hv. split; [now apply carried_set | assumption].
    + simpl. now rewrite length_map.
    + simpl. now apply extend_tracked.
  - assumption.
  - eapply resolve_single; [exact Hcols | eapply tracked_column; eauto].
  - eapply Forall2_Forall_r; [exact F|].
    intros a r [Hcar HE]. destruct (Hstep a r Hcar HE) as (v & Hv & _).
    exists v. exact Hv.
Qed.

Lemma where_total (e : expr) (cin : string)
      (rs0 : list row) (cols : list string) (E : row -> Prop) (n : nat)
      (df : DataFrame) :
  udf_free e = true -> columns_of e = [cin] -> In cin cols ->
  tracks rs0 cols E n df ->
  (forall a r, carried cols a r -> E r -> eval_row' r e = Ok (VBool true)) ->
  exists df', fst (where' e df) = Ok df' /\ tracks rs0 cols E n df'.
Proof.
  intros Hfree Hcols Hin (F & Hn & Hsch) Hstep.
  exists (filter_rows (holds' e) df).
  rewrite where_exact.
  - split; [reflexivity|]. repeat split.
    + rewrite rows_filter_rows, filter_all; [exact F|].
      eapply Forall2_Forall_r; [exact F|].
      intros a r [Hcar HE]. unfold holds. now rewrite (Hstep a r Hcar HE).
    + simpl. now rewrite length_map.
    + exact Hsch.
  - assumption.
  - eapply resolve_single; [exact Hcols | eapply tracked_column; eauto].
  - eapply Forall2_Forall_r; [exact F|].
    intros a r [Hcar HE]. exists true. now apply Hstep with (a := a).
Qed.

Lemma udf_total (c c0 : string) (f : series -> list nat -> res series)
      (shp : list nat) (v : value)
      (rs0 : list row) (cols : list string) (E E' : row -> Prop) (n : nat)
      (df : DataFrame) :
  (forall x, f x shp = Ok (repeat v (length x))) ->
  In c0 cols -> String.eqb c "filename" = false ->
  tracks rs0 cols E n df ->
  (forall r, E r -> E' (set c v r)) ->
  exists df', fst (with_column' c (udf f (col c0) shp) df) = Ok df' /\
              tracks rs0 (c :: cols) E' n df'.
Proof.
  intros Hf Hin Hc (F & Hn & Hsch) Hstep.
  exists (map_rows c (fun _ => v) df).
  rewrite with_column_udf_constant with (v := v).
  - split; [reflexivity|]. repeat split.
    + rewrite rows_map_rows. eapply Forall2_map_r; [exact F|].
      intros a r [Hcar HE]. split; [now apply carried_set | auto].
    + simpl. now rewrite length_map.
    + simpl. now apply extend_tracked.
  - assumption.
  - eapply tracked_column; eauto.
  - eapply Forall2_Forall_r; [exact F|].
    intros a r [Hcar _]. eapply carried_present; eauto.
Qed.

Lemma select_tracked (cols0 : list string)
      (rs0 : list row) (cols : list string) (E : row -> Prop) (n : nat)
      (df : DataFrame) :
  incl cols0 cols ->
  tracks rs0 cols E n df ->
  exists df',
    fst (select cols0 df) = Ok df' /\ schema df' = cols0 /\
    length (partitions df') = n /\
    Forall2 (fun a r' => exists r, carried cols a r /\ E r /\
                                   project_row cols0 r = Ok r') rs0 (rows df').
Proof.
  intros Hincl (F & Hn & Hsch).
  destruct (@select_total cols0 df) as (df' & Hdf').
  - apply resolve_columns_ok. apply forallb_forall. intros c Hc.
    eapply tracked_column; eauto.
  - eapply Forall2_Forall_r; [exact F|].
    intros a r [Hcar _]. apply Forall_forall. intros c Hc.
    eapply carried_present; eauto.
  - exists df'. split; [assumption|].
    pose proof (select_partitions _ _ Hdf') as Hlen.
    apply select_sound in Hdf'. destruct Hdf' as [Hs Hrows].
    repeat split; [assumption | congruence |].
    eapply Forall2_chain; [exact F | exact Hrows |].
    intros a r r' [Hcar HE] Hp. eauto.
Qed.


Section Stubs.

Variable classify : series -> list nat -> res series.
Variable t0 : tensor.

Hypothesis download_ok : forall url, exists b, download url = Ok b.
Hypothesis decode_stub : forall b, decode b = Ok t0.
Hypothesis three : exists h w, shape t0 = [h; w; 3].
Hypothesis classify_stub :
  forall x shp, classify x shp = Ok (repeat (VStr "cat") (length x)).

Lemma prune_total (t : DataFrame) :
  has_column (schema t) "object" = true ->
  count_rows t <= NUM_ROWS ->
  Forall input_row (rows t) ->
  exists df, fst (prune download decode resample t) = Ok df /\
             rows df = rows t /\ schema df = schema t.
Proof.
  intros Hobj Hcount F. unfold prune.
  assert (Hrows : rows (limit NUM_ROWS t) = rows t)
    by (rewrite limit_rows; now apply firstn_all2).
  rewrite where_exact.
  - eexists; split; [reflexivity|]. split; [|reflexivity].
    rewrite rows_filter_rows, Hrows. apply filter_all.
    eapply Forall_impl; [|exact F]. intros r [_ Ho].
    now apply length_is_1_holds.
  - reflexivity.
  - now apply length_is_1_resolves.
  - rewrite Hrows. eapply Forall_impl; [|exact F].
    intros r [_ (l & Hl & _)]. eexists. apply length_is_1_row. exact Hl.
Qed.

Lemma prepared_total (t : DataFrame) :
  has_column (schema t) "filename" = true ->
  has_column (schema t) "object" = true ->
  count_rows t <= NUM_ROWS ->
  Forall input_row (rows t) ->
  exists df,
    fst (prepared download decode resample t) = Ok df /\
    tracks (rows t)
           ["image_resized_large"; "image_resized_small"; "image"; "image_url";
            "filename"; "object"]
           (fun r => get "image" r = Some (VImage t0)) 16 df.
Proof.
  intros Hfn Hobj Hcount F.
  destruct (prune_total t Hobj Hcount F) as (df1 & H1 & Hrows1 & Hsch1).
  destruct (split_rows (df := df1) eq_refl) as (Hrows2 & Hsch2 & Hn2).
  set (df2 := {| schema := schema df1; partitions := split_even 16 (rows df1) |}) in *.
  assert (T2 : tracks (rows t) ["filename"; "object"]
                 (fun r => exists fn, get "filename" r = Some (VStr fn)) 16 df2).
  { split; [|split].
    - rewrite Hrows2, Hrows1. clear -F.
      induction F as [|r rs [(fn & Hr) (l & Hl & _)] _ IH]; constructor; [|exact IH].
      repeat split; [|eauto]. repeat constructor; unfold present; eauto.
    - exact Hn2.
    - rewrite Hsch2, Hsch1. simpl. now rewrite Hfn, Hobj. }
  assert (S3 : exists df3,
             fst (with_column download decode resample
                    "image_url" image_url_expr df2) = Ok df3 /\
             tracks (rows t) ["image_url"; "filename"; "object"]
                    (fun r => exists u, get "image_url" r = Some (VStr u)) 16 df3).
  { eapply with_column_total with (cin := "filename");
      [reflexivity | reflexivity | simpl; auto | reflexivity | exact T2 |].
    intros a r _ (fn & Hr). exists (VStr (image_url_of fn)). split.
    - apply url_row. eauto.
    - rewrite get_set_same. eauto. }
  destruct S3 as (df3 & H3 & T3).
  assert (S4 : exists df4,
             fst (with_column download decode resample "image"
                    (image_decode (url_download (col "image_url"))) df3) = Ok df4 /\
             tracks (rows t) ["image"; "image_url"; "filename"; "object"]
                    (fun r => get "image" r = Some (VImage t0)) 16 df4).
  { eapply with_column_total with (cin := "image_url");
      [reflexivity | reflexivity | simpl; auto | reflexivity | exact T3 |].
    intros a r _ (u & Hu). destruct (download_ok u) as (b & Hb).
    exists (VImage t0). split.
    - apply image_row. exists u, b, t0. auto.
    - apply get_set_same. }
  destruct S4 as (df4 & H4 & T4).
  destruct three as (h0 & w0 & Hshape).
  assert (S5 : exists df5,
             fst (with_column download decode resample "image_resized_small"
                    (image_resize 32 32 (col "image")) df4) = Ok df5 /\
             tracks (rows t)
                    ["image_resized_small"; "image"; "image_url"; "filename"; "object"]
                    (fun r => get "image" r = Some (VImage t0)) 16 df5).
  { eapply with_column_total with (cin := "image");
      [reflexivity | reflexivity | simpl; auto | reflexivity | exact T4 |].
    intros a r _ Hi. eexists. split.
    - apply resize_row. exists t0, h0, w0, 3. auto.
    - now rewrite get_set_other by reflexivity. }
  destruct S5 as (df5 & H5 & T5).
  assert (S6 : exists df6,
             fst (with_column download decode resample "image_resized_large"
                    (image_resize 256 256 (col "image")) df5) = Ok df6 /\
             tracks (rows t)
                    ["image_resized_large"; "image_resized_small"; "image";
                     "image_url"; "filename"; "object"]
                    (fun r => get "image" r = Some (VImage t0)) 16 df6).
  { eapply with_column_total with (cin := "image");
      [reflexivity | reflexivity | simpl; auto | reflexivity | exact T5 |].
    intros a r _ Hi. eexists. split.
    - apply resize_row. exists t0, h0, w0, 3. auto.
    - now rewrite get_set_other by reflexivity. }
  destruct S6 as (df6 & H6 & T6).
  assert (S7 : exists df7,
             fst (where_ download decode resample
                    (apply channels_is_3 (col "image")) df6) = Ok df7 /\
             tracks (rows t)
                    ["image_resized_large"; "image_resized_small"; "image";
                     "image_url"; "filename"; "object"]
                    (fun r => get "image" r = Some (VImage t0)) 16 df7).
  { eapply where_total with (cin := "image");
      [reflexivity | reflexivity | simpl; auto | exact T6 |].
    intros a r _ Hi. cbn -[nth_error]. rewrite Hi. cbn -[nth_error].
    rewrite Hshape. reflexivity. }
  destruct S7 as (df7 & H7 & T7).
  exists df7. split; [|exact T7].
  unfold prepared. apply bind_Ok. exists df1; split; [exact H1|].
  apply bind_Ok. exists df2; split; [reflexivity|].
  apply bind_Ok. exists df6; split; [|exact H7].
  unfold preprocess_images. apply bind_Ok. exists df3; split; [exact H3|].
  apply bind_Ok. exists df4; split; [exact H4|].
  apply bind_Ok. exists df5; split; [exact H5 | exact H6].
Qed.

Lemma results_total (t : DataFrame) :
  has_column (schema t) "filename" = true ->
  has_column (schema t) "object" = true ->
  count_rows t <= NUM_ROWS ->
  Forall input_row (rows t) ->
  exists df,
    fst (results download decode resample classify t) = Ok df /\
    length (partitions df) = 16 /\
    Forall2 (fun a r => get "filename" r = get "filename" a /\ labelled_cat r)
            (rows t) (rows df).
Proof.
  intros Hfn Hobj Hcount F.
  destruct (prepared_total t Hfn Hobj Hcount F) as (df1 & H1 & T1).
  assert (S2 : exists df2,
             fst (with_column download decode resample "predictions_lowres"
                    (udf classify (col "image_resized_small") [32; 32; 3]) df1)
             = Ok df2 /\
             tracks (rows t)
                    ["predictions_lowres";
                     "image_resized_large"; "image_resized_small"; "image";
                     "image_url"; "filename"; "object"]
                    (fun r => get "predictions_lowres" r = Some (VStr "cat")) 16 df2).
  { eapply udf_total with (v := VStr "cat");
      [intros x; apply classify_stub | simpl; auto | reflexivity | exact T1 |].
    intros r _. apply get_set_same. }
  destruct S2 as (df2 & H2 & T2).
  assert (S3 : exists df3,
             fst (with_column download decode resample "predictions_highres"
                    (udf classify (col "image_resized_large") [256; 256; 3]) df2)
             = Ok df3 /\
             tracks (rows t)
                    ["predictions_highres"; "predictions_lowres";
                     "image_resized_large"; "image_resized_small"; "image";
                     "image_url"; "filename"; "object"]
                    labelled_cat 16 df3).
  { eapply udf_total with (v := VStr "cat");
      [intros x; apply classify_stub | simpl; auto | reflexivity | exact T2 |].
    intros r Hlo. split.
    - now rewrite get_set_other by reflexivity.
    - apply get_set_same. }
  destruct S3 as (df3 & H3 & T3).
  assert (Hincl : incl projection
                    ["predictions_highres"; "predictions_lowres";
                     "image_resized_large"; "image_resized_small"; "image";
                     "image_url"; "filename"; "object"]).
  { unfold projection. intros c Hc. simpl in Hc |- *.
    repeat (destruct Hc as [<-|Hc]; [tauto|]). contradiction. }
  destruct (select_tracked Hincl T3) as (df4 & H4 & _ & Hn & F4).
  exists df4. split; [|split; [exact Hn|]].
  - unfold results. apply bind_Ok. exists df3; split; [|exact H4].
    unfold intermediate. apply bind_Ok. exists df1; split; [exact H1|].
    unfold infer. apply bind_Ok. exists df2; split; assumption.
  - eapply Forall2_impl; [|exact F4].
    intros a r' (r & [Hsame _] & [Hlo Hhi] & Hp).
    assert (G : forall c, In c projection -> get c r' = get c r)
      by (intros c; now apply project_row_get).
    unfold labelled_cat.
    rewrite (G "filename"), (G "predictions_lowres"), (G "predictions_highres")
      by (simpl; tauto).
    auto.
Qed.

(** With a fetch that succeeds, the constant decoder and the constant
    classifier, the job on well-formed input rows (at least one)
    completes, and what is read back holds one row per input row,
    labelled cat twice. *)
Lemma complete_run (t : DataFrame) (fs : filesystem) :
  has_column (schema t) "filename" = true ->
  has_column (schema t) "object" = true ->
  count_rows t <= NUM_ROWS ->
  Forall input_row (rows t) ->
  rows t <> [] ->
  fresh_output fs = true ->
  exists out,
    fst (run_and_read download decode resample classify t fs) = Ok out /\
    Forall2 (fun a r => get "filename" r = get "filename" a /\ labelled_cat r)
            (rows t) (rows out).
Proof.
  intros Hfn Hobj Hcount F Hsome Hfresh.
  destruct (results_total t Hfn Hobj Hcount F) as (df & Hdf & Hn & F2).
  exists {| schema := schema df; partitions := [rows df] |}.
  split; [|unfold rows at 2; cbn [partitions concat]; rewrite app_nil_r; exact F2].
  unfold run_and_read. apply bind_Ok.
  exists (write_parquet results_path df fs). split.
  - unfold run. apply bind_Ok. exists df. split; [exact Hdf | reflexivity].
  - apply read_after_write; [exact Hfresh|].
    intros E. rewrite E in F2. inversion F2 as [E0|]. now apply Hsome.
Qed.

End Stubs.

End CompleteRuns.

(* ================================================================== *)
(** ** End to end *)

Lemma stub_classifier_constant (x : series) (shp : list nat) :
  stub_classifier x shp = Ok (repeat (VStr "cat") (length x)).
Proof.
  unfold stub_classifier, daft_udf_string. simpl. f_equal. apply map_repeat.
Qed.

Lemma input_row_named_spec (fn : string) (r : row) :
  input_row_named fn r = true ->
  get "filename" r = Some (VStr fn) /\ input_row r.
Proof.
  unfold input_row_named, input_row, has_object.
  destruct (get "filename" r) as [[f| | | | |]|]; try discriminate.
  destruct (get "object" r) as [[| | | |[|o [|]]|]|]; try discriminate.
  intros H. apply String.eqb_eq in H. subst f. eauto 6.
Qed.

(** C3, amended. For a 3-row input table with filenames a, b, c in which
    every row lists exactly one object, a fetch that succeeds, a decoder
    returning a constant 4x4x3 array and the classifier that always
    answers cat, running the pipeline into a fresh output directory and
    reading the output back yields exactly 3 rows, for a, b and c, each
    with predictions_lowres = predictions_highres = cat. *)
Theorem end_to_end_three_rows
        (download : string -> res (list byte))
        (resample : nat -> nat -> tensor -> list Z)
        (t0 : tensor) (t : DataFrame) (fs : filesystem) :
  shape t0 = [4; 4; 3] ->
  (forall url, exists b, download url = Ok b) ->
  three_rows_abc t = true ->
  fresh_output fs = true ->
  exists out log,
    run_and_read download (fun _ => Ok t0) resample stub_classifier t fs = (Ok out, log) /\
    count_rows out = 3 /\
    map (get "filename") (rows out) = [Some (VStr "a"); Some (VStr "b"); Some (VStr "c")] /\
    Forall (fun r => get "predictions_lowres" r = Some (VStr "cat") /\
                     get "predictions_highres" r = Some (VStr "cat")) (rows out).
Proof.
  intros Hshape Hdl H3 Hfresh. unfold three_rows_abc in H3.
  apply andb_true_iff in H3. destruct H3 as [Hsch H3].
  apply andb_true_iff in Hsch. destruct Hsch as [Hfn Hobj].
  destruct (rows t) as [|r1 [|r2 [|r3 [|]]]] eqn:Hrows; try discriminate.
  apply andb_true_iff in H3. destruct H3 as [H12 Hc].
  apply andb_true_iff in H12. destruct H12 as [Ha Hb].
  apply input_row_named_spec in Ha, Hb, Hc.
  destruct Ha as [Ha Ia], Hb as [Hb Ib], Hc as [Hc Ic].
  assert (R : exists out,
             fst (run_and_read download (fun _ => Ok t0) resample stub_classifier t fs)
             = Ok out /\
             Forall2 (fun a r => get "filename" r = get "filename" a /\ labelled_cat r)
                     (rows t) (rows out)).
  { apply complete_run with (t0 := t0); try assumption.
    - reflexivity.
    - exists 4, 4. exact Hshape.
    - intros x shp. apply stub_classifier_constant.
    - unfold count_rows, NUM_ROWS. rewrite Hrows. simpl. lia.
    - rewrite Hrows. repeat (apply Forall_cons; [assumption|]). apply Forall_nil.
    - rewrite Hrows. discriminate. }
  destruct R as (out & Hout & F).
  exists out, (snd (run_and_read download (fun _ => Ok t0) resample stub_classifier t fs)).
  split; [now apply M_eta|].
  rewrite Hrows in F.
  inversion F as [|? x1 ? l1 [E1 L1] F1]; subst.
  inversion F1 as [|? x2 ? l2 [E2 L2] F2]; subst.
  inversion F2 as [|? x3 ? l3 [E3 L3] F3]; subst.
  inversion F3; subst.
  unfold count_rows.
  match goal with H : _ = rows out |- _ => rewrite <- H end.
  simpl. rewrite E1, E2, E3, Ha, Hb, Hc.
  split; [reflexivity|]. split; [reflexivity|].
  repeat (apply Forall_cons; [assumption|]). apply Forall_nil.
Qed.

(* ================================================================== *)
(** ** The statements at concrete inputs *)

Lemma demo_net_shape (x : tensor) (n c h w : nat) :
  shape x = [n; c; h; w] ->
  ClassifyImage.well_shaped n (length (ClassifyImage.category_map Demo.net))
    (Demo.softmax0 (ClassifyImage.model Demo.net (ClassifyImage.preprocess Demo.net x)))
  = true.
Proof.
  intros Hx. unfold Demo.softmax0, Demo.net; simpl. rewrite Hx; simpl.
  unfold ClassifyImage.well_shaped. rewrite length_map, length_seq, Nat.eqb_refl. simpl.
  apply forallb_forall. intros row Hrow. apply in_map_iff in Hrow.
  destruct Hrow as (i & <- & _). reflexivity.
Qed.

(** Three 1x2x3 arrays through the four-label network: three labels of
    its category map. *)
Lemma call_returns_one_label_per_image_witness :
  exists labels,
    ClassifyImage.__call__ Z.ltb Demo.softmax0 Demo.net Demo.batch [1; 2; 3] = Ok labels /\
    length labels = length Demo.batch /\
    Forall (fun l => In l (ClassifyImage.category_map Demo.net)) labels.
Proof.
  apply (@call_returns_one_label_per_image Z Z.ltb tensor Demo.softmax0 Demo.net
           Demo.batch 1 2 3).
  - simpl. lia.
  - reflexivity.
  - discriminate.
  - intros x n. apply demo_net_shape.
Defined.

(** The scenario on [Demo.table_abc] with an empty file system. *)
Lemma end_to_end_three_rows_witness :
  exists out log,
    run_and_read Demo.download_stub (fun _ => Ok (Demo.pixels 4 4 3)) Demo.resample_stub
      stub_classifier Demo.table_abc [] = (Ok out, log) /\
    count_rows out = 3 /\
    map (get "filename") (rows out) = [Some (VStr "a"); Some (VStr "b"); Some (VStr "c")] /\
    Forall (fun r => get "predictions_lowres" r = Some (VStr "cat") /\
                     get "predictions_highres" r = Some (VStr "cat")) (rows out).
Proof.
  apply (@end_to_end_three_rows Demo.download_stub Demo.resample_stub
           (Demo.pixels 4 4 3) Demo.table_abc []).
  - reflexivity.
  - intros url. exists []. reflexivity.
  - reflexivity.
  - reflexivity.
Defined.

(** The scenario on [Demo.table_crowded], whose row b lists two objects:
    three input rows named a, b, c, yet the output that is read back has
    2 rows, for a and c, not 3. *)
Lemma end_to_end_counterexample :
  map (get "filename") (rows Demo.table_crowded)
  = [Some (VStr "a"); Some (VStr "b"); Some (VStr "c")] /\
  exists out log,
    run_and_read Demo.download_stub (fun _ => Ok (Demo.pixels 4 4 3))
      Demo.resample_stub stub_classifier Demo.table_crowded [] = (Ok out, log) /\
    map (get "filename") (rows out) = [Some (VStr "a"); Some (VStr "c")] /\
    count_rows out = 2 /\
    count_rows out <> 3.
Proof.
  split; [reflexivity|].
  eexists. eexists. split; [vm_compute; reflexivity|].
  split; [reflexivity|]. split; [reflexivity | discriminate].
Qed.

(** Before the channel filter the resized copies follow the image: the
    grey image a is resized to 32x32x1. *)
Remark resized_grey_image_before_filter :
  exists df r,
    fst (preprocess_images Demo.download_by_name Demo.decode_by_size Demo.resample_stub
           Demo.table_abc) = Ok df /\
    In r (rows df) /\
    holds_tensor "image_resized_small" [32; 32; 1] r.
Proof.
  eexists. eexists. split; [vm_compute; reflexivity|].
  split; [left; reflexivity|].
  eexists. split; reflexivity.
Qed.

Lemma length_filter_idempotent_witness :
  exists df1,
    where_ Demo.download_stub Demo.decode_by_size Demo.resample_stub
      (length_is_1 "object") Demo.table_crowded = (Ok df1, []) /\
    where_ Demo.download_stub Demo.decode_by_size Demo.resample_stub
      (length_is_1 "object") df1 = (Ok df1, []).
Proof.
  apply (@length_filter_idempotent Demo.download_stub Demo.decode_by_size
           Demo.resample_stub "object" Demo.table_crowded).
  reflexivity.
Defined.

Lemma into_partitions_preserves_rows_witness :
  exists df',
    into_partitions 16 Demo.table_abc = Ok df' /\
    length (partitions df') = 16 /\
    count_rows df' = count_rows Demo.table_abc /\
    Permutation (rows df') (rows Demo.table_abc) /\
    schema df' = schema Demo.table_abc.
Proof.
  apply (@into_partitions_preserves_rows 16 Demo.table_abc). lia.
Defined.

Lemma resized_columns_have_fixed_shape_witness :
  Forall (fun r => holds_tensor "image_resized_small" [32; 32; 3] r /\
                   holds_tensor "image_resized_large" [256; 256; 3] r)
         (rows Demo.intermediate_table).
Proof.
  apply (@resized_columns_have_fixed_shape Demo.download_by_name Demo.decode_by_size
           Demo.resample_stub stub_classifier Demo.table_crowded
           Demo.intermediate_table).
  right. vm_compute. reflexivity.
Defined.

Lemma image_url_is_concatenation_witness :
  Forall (fun r => exists fn,
            get "filename" r = Some (VStr fn) /\
            get "image_url" r =
              Some (VStr ("s3://daft-public-datasets/imagenet/val-10k-sample-deltalake/images/"
                          ++ fn ++ ".jpeg")%string)) (rows Demo.intermediate_table).
Proof.
  apply (@image_url_is_concatenation Demo.download_by_name Demo.decode_by_size
           Demo.resample_stub stub_classifier Demo.table_crowded
           Demo.intermediate_table).
  left. vm_compute. reflexivity.
Defined.

Lemma inference_sees_three_channels_witness :
  Forall three_channels (rows Demo.prepared_table) /\
  exists files,
    snd Demo.written = [] ++ files /\ map path files = fst Demo.written /\
    Forall (fun f => Forall (result_row Demo.download_by_name Demo.decode_by_size)
                            (file_rows f)) files.
Proof.
  destruct (@inference_sees_three_channels Demo.download_by_name Demo.decode_by_size
              Demo.resample_stub stub_classifier Demo.table_crowded [])
    as (_ & Hprepared & Hwritten).
  split.
  - apply Hprepared. vm_compute. reflexivity.
  - apply (Hwritten (fst Demo.written) (snd Demo.written)). vm_compute. reflexivity.
Defined.

(* ================================================================== *)
(** * Further properties *)

Unset Implicit Arguments.

(** ** Which label the batched transform returns *)

Section ClassifyImageLabels.

Import ClassifyImage.

Variable score : Type.
Variable score_ltb : score -> score -> bool.
Variable ftensor : Type.
Variable softmax0 : list (list score) -> list (list score).
Variable self : ClassifyImage.t score ftensor.

Lemma argmax_from_maximal (row : list score) :
  (forall s, score_ltb s s = false) ->
  (forall a b c, score_ltb a b = true -> score_ltb b c = true -> score_ltb a c = true) ->
  forall pre best besti,
    nth_error pre besti = Some best ->
    Forall (fun s => score_ltb best s = false) pre ->
    exists b,
      nth_error (pre ++ row) (argmax_from score_ltb best besti (length pre) row) = Some b /\
      Forall (fun s => score_ltb b s = false) (pre ++ row).
Proof.
  intros Hirr Htrans.
  induction row as [|x row IH]; intros pre best besti Hbest Hpre.
  - simpl. rewrite app_nil_r. eauto.
  - simpl. replace (pre ++ x :: row) with ((pre ++ [x]) ++ row)
      by (rewrite <- app_assoc; reflexivity).
    replace (S (length pre)) with (length (pre ++ [x]))
      by (rewrite length_app; simpl; lia).
    destruct (score_ltb best x) eqn:E.
    + apply IH.
      * rewrite nth_error_app2 by lia. now rewrite Nat.sub_diag.
      * apply Forall_app; split; [|constructor; [apply Hirr | constructor]].
        eapply Forall_impl; [|exact Hpre]. intros y Hy. cbv beta in Hy.
        destruct (score_ltb x y) eqn:Exy; [|reflexivity].
        rewrite (Htrans _ _ _ E Exy) in Hy. discriminate.
    + apply IH.
      * rewrite nth_error_app1; [assumption|].
        apply nth_error_Some. congruence.
      * apply Forall_app; split; [assumption | constructor; [assumption | constructor]].
Qed.

Lemma argmax_row_maximal (row : list score) (j : nat) :
  (forall s, score_ltb s s = false) ->
  (forall a b c, score_ltb a b = true -> score_ltb b c = true -> score_ltb a c = true) ->
  argmax_row score_ltb row = Ok j ->
  exists best, nth_error row j = Some best /\
               Forall (fun s => score_ltb best s = false) row.
Proof.
  intros Hirr Htrans. destruct row as [|x row]; [discriminate|].
  simpl. intros H; injection H as <-.
  apply (argmax_from_maximal row Hirr Htrans [x] x 0).
  - reflexivity.
  - constructor; [apply Hirr | constructor].
Qed.

Lemma argmax_from_constant (row : list score) (best : score) (besti i : nat) :
  Forall (fun s => score_ltb best s = false) row ->
  argmax_from score_ltb best besti i row = besti.
Proof.
  revert i. induction row as [|x row IH]; intros i F; [reflexivity|].
  inversion F as [|? ? Hx F']; subst. simpl. rewrite Hx. now apply IH.
Qed.

(** What a completed call did, step by step. *)
Lemma call_inversion (images : series) (shp : list nat) (labels : list string) :
  images <> [] ->
  __call__ score_ltb softmax0 self images shp = Ok labels ->
  exists data x class_ids,
    mapM_res (cast_uint8_tensor shp) images = Ok data /\
    permute_0_3_1_2 (np_array shp data) = Ok x /\
    argmax1 score_ltb (softmax0 (model self (preprocess self x))) = Ok class_ids /\
    mapM_res (fun class_id =>
                of_option IndexError (nth_error (category_map self) class_id))
             class_ids = Ok labels.
Proof.
  intros Hne H. unfold __call__ in H.
  destruct (Nat.eqb_spec (length images) 0) as [E|_].
  - destruct images; [congruence | discriminate].
  - apply res_bind_Ok in H. destruct H as (data & Hdata & H).
    apply res_bind_Ok in H. destruct H as (x & Hx & H). cbv zeta in H.
    apply res_bind_Ok in H. destruct H as (class_ids & Hids & H).
    apply res_bind_Ok in H. destruct H as (scores & _ & H).
    exists data, x, class_ids. auto.
Qed.

(** X1. Each label a completed call returns is the category at an index
    whose score no other score of that image's prediction row exceeds
    (for an order on scores that is irreflexive and transitive). *)
Theorem labels_are_top_scoring (images : series) (shp : list nat) (labels : list string) :
  (forall s, score_ltb s s = false) ->
  (forall a b c, score_ltb a b = true -> score_ltb b c = true -> score_ltb a c = true) ->
  images <> [] ->
  __call__ score_ltb softmax0 self images shp = Ok labels ->
  exists data x,
    mapM_res (cast_uint8_tensor shp) images = Ok data /\
    permute_0_3_1_2 (np_array shp data) = Ok x /\
    Forall2 (fun row label =>
               exists j best,
                 nth_error (category_map self) j = Some label /\
                 nth_error row j = Some best /\
                 Forall (fun s => score_ltb best s = false) row)
            (softmax0 (model self (preprocess self x))) labels.
Proof.
  intros Hirr Htrans Hne H.
  destruct (call_inversion images shp labels Hne H)
    as (data & x & class_ids & Hdata & Hx & Hids & Hlab).
  exists data, x. repeat split; try assumption.
  unfold argmax1 in Hids. apply mapM_res_Forall2 in Hids, Hlab.
  eapply Forall2_chain; [exact Hids | exact Hlab |].
  intros row j label Hj Hl. cbv beta in *.
  destruct (argmax_row_maximal row j Hirr Htrans Hj) as (best & Hbest & Hmax).
  exists j, best. repeat split; try assumption.
  destruct (nth_error (category_map self) j); simpl in Hl; congruence.
Qed.

(** Whatever the network returns, the labels of a completed call are
    entries of the category map. *)
Lemma call_labels_in_category_map (images : series) (shp : list nat) (labels : list string) :
  __call__ score_ltb softmax0 self images shp = Ok labels ->
  Forall (fun l => In l (category_map self)) labels.
Proof.
  intros H. destruct images as [|v images].
  - unfold __call__ in H. simpl in H. injection H as <-. constructor.
  - assert (Hne : v :: images <> []) by discriminate.
    destruct (call_inversion (v :: images) shp labels Hne H)
      as (_ & _ & class_ids & _ & _ & _ & Hlab).
    apply mapM_res_Forall2 in Hlab.
    eapply Forall2_Forall_r; [exact Hlab|].
    intros j l Hl. cbv beta in Hl.
    destruct (nth_error (category_map self) j) eqn:E; simpl in Hl; [|discriminate].
    injection Hl as <-. eapply nth_error_In; eauto.
Qed.

(** X2. Softmax is taken over dimension 0, the batch: for a batch of one
    image every score of its row becomes the same value, the first index
    is the arg-max, and the call returns the first category, whatever the
    network computed. *)
Theorem single_image_gets_first_category
        (img : value) (h w c : nat) (first : string) (rest : list string) :
  (forall s, score_ltb s s = false) ->
  (forall row, exists one, softmax0 [row] = [map (fun _ => one) row]) ->
  is_tensor_of [h; w; c] img = true ->
  category_map self = first :: rest ->
  (forall x, shape x = [1; c; h; w] ->
     well_shaped 1 (length (category_map self)) (model self (preprocess self x)) = true) ->
  __call__ score_ltb softmax0 self [img] [h; w; c] = Ok [first].
Proof.
  intros Hirr Hsoft Himg Hcat Hnet. unfold __call__.
  change (Nat.eqb (length [img]) 0) with false. cbv iota.
  destruct (cast_all_ok [h; w; c] [img]) as (arrays & Harr & Hlen);
    [simpl; now rewrite Himg|].
  rewrite Harr. cbn [res_bind].
  destruct arrays as [|a [|? ?]]; try discriminate.
  destruct (@permute_batch_ok h w c [a]) as (x & Hx & Hshape); [discriminate|].
  rewrite Hx. cbn [res_bind]. cbv zeta.
  specialize (Hnet x Hshape). apply well_shaped_spec in Hnet. destruct Hnet as [Hrows Hcols].
  destruct (model self (preprocess self x)) as [|row [|? ?]]; try discriminate.
  inversion Hcols as [|? ? Hrow _]; subst. rewrite Hcat in Hrow. simpl in Hrow.
  destruct row as [|s row]; [discriminate|].
  destruct (Hsoft (s :: row)) as (one & ->).
  unfold argmax1. simpl mapM_res at 1. unfold argmax_row. simpl map.
  rewrite argmax_from_constant.
  - simpl. rewrite Hcat. reflexivity.
  - apply Forall_forall. intros y Hy. apply in_map_iff in Hy.
    destruct Hy as (? & <- & _). apply Hirr.
Qed.


(** A batch of arrays of the declared shape, empty or not, is labelled
    image by image when the network keeps its shape contract. *)
Lemma call_total (images : series) (h w c : nat) :
  forallb (is_tensor_of [h; w; c]) images = true ->
  category_map self <> [] ->
  (forall x n, shape x = [n; c; h; w] ->
     well_shaped n (length (category_map self))
       (softmax0 (model self (preprocess self x))) = true) ->
  exists labels,
    __call__ score_ltb softmax0 self images [h; w; c] = Ok labels /\
    length labels = length images.
Proof.
  intros Himages Hcat Hnet.
  destruct images as [|v images]; [exists []; split; reflexivity|].
  unfold __call__. change (Nat.eqb (length (v :: images)) 0) with false. cbv iota.
  destruct (cast_all_ok [h; w; c] (v :: images) Himages) as (arrays & -> & Hlen).
  cbn [res_bind].
  assert (Hne : arrays <> []) by (destruct arrays; simpl in *; [lia | congruence]).
  destruct (@permute_batch_ok h w c arrays Hne) as (x & -> & Hx). cbn [res_bind]. cbv zeta.
  specialize (Hnet x _ Hx). apply well_shaped_spec in Hnet. destruct Hnet as [Hrows Hcols].
  set (prediction := softmax0 (model self (preprocess self x))) in *.
  assert (Hk : 0 < length (category_map self))
    by (destruct (category_map self); simpl; [congruence | lia]).
  destruct (@mapM_res_total _ _ (argmax_row score_ltb)
              (fun j => j < length (category_map self)) prediction)
    as (class_ids & Hids & Hidlen & Hbound).
  { eapply Forall_impl; [|exact Hcols]. intros row Hrow. cbv beta in *.
    destruct (@argmax_row_lt _ score_ltb row) as (j & Hj & Hlt); [lia|].
    exists j; split; [assumption | lia]. }
  unfold argmax1. rewrite Hids. cbn [res_bind].
  destruct (@index_columns_ok _ (length (category_map self)) prediction class_ids
              Hcols Hbound) as (scores & ->). cbn [res_bind].
  destruct (@labels_ok _ _ self class_ids Hbound) as (labels & -> & Hlab & _).
  exists labels. split; [reflexivity | lia].
Qed.

Lemma cast_any_bad (shp : list nat) (images : series) (v : value) :
  In v images -> is_tensor_of shp v = false ->
  exists e, mapM_res (cast_uint8_tensor shp) images = Err e /\
            (e = ValueError \/ e = TypeError).
Proof.
  intros Hin Hbad. induction images as [|a images IH]; [destruct Hin|].
  cbn [mapM_res].
  destruct (cast_uint8_tensor shp a) as [b|e] eqn:Ea.
  - destruct Hin as [->|Hin].
    + exfalso. destruct v; simpl in Ea, Hbad; try discriminate.
      rewrite Hbad in Ea. discriminate.
    + destruct (IH Hin) as (e & -> & He). exists e. split; [reflexivity | exact He].
  - exists e. split; [reflexivity|].
    destruct a; simpl in Ea; try (injection Ea as <-; now left).
    destruct (shape_eqb _ _); [discriminate|]. injection Ea as <-. now left.
Qed.

(** X12. One image that is not an array of the declared shape (such as a
    one-channel image where [.., .., 3] is declared, or a value that is
    no array) fails the whole batch: the cast raises, before [permute]
    and the network, and no label is returned for any image of the
    batch. *)
Theorem call_rejects_mismatched_image (images : series) (shp : list nat) (v : value) :
  In v images ->
  is_tensor_of shp v = false ->
  exists e, __call__ score_ltb softmax0 self images shp = Err e /\
            (e = ValueError \/ e = TypeError).
Proof.
  intros Hin Hbad. unfold __call__.
  destruct (Nat.eqb_spec (length images) 0) as [E|_];
    [destruct images; [destruct Hin | discriminate]|].
  destruct (cast_any_bad shp images v Hin Hbad) as (e & -> & He).
  exists e. split; [reflexivity | exact He].
Qed.

End ClassifyImageLabels.

(* ================================================================== *)
(** ** Which rows are written, and when the job fails *)

Lemma Forall_Forall2_map (A B : Type) (P : A -> Prop) (R : A -> B -> Prop) (f : A -> B)
      (l : list A) :
  Forall P l -> (forall a, P a -> R a (f a)) -> Forall2 R l (map f l).
Proof. induction 1; intros H'; simpl; constructor; auto. Qed.

Lemma Forall2_filter (A B : Type) (R : A -> B -> Prop) (f : A -> bool) (g : B -> bool)
      (l : list A) (l' : list B) :
  Forall2 R l l' -> (forall a b, R a b -> f a = g b) ->
  Forall2 R (filter f l) (filter g l').
Proof.
  induction 1 as [|a b l l' Hab _ IH]; intros Hfg; simpl; [constructor|].
  rewrite (Hfg a b Hab). destruct (g b); [constructor|]; auto.
Qed.

Lemma filter_filter_andb (A : Type) (f g : A -> bool) (l : list A) :
  filter g (filter f l) = filter (fun a => f a && g a) l.
Proof.
  induction l as [|a l IH]; simpl; [reflexivity|].
  destruct (f a); simpl; [destruct (g a)|]; congruence.
Qed.

Lemma written_files_exact (root : string) (df : DataFrame) (fs : filesystem) :
  exists files,
    write_parquet root df fs = (map path files, fs ++ files) /\
    map file_rows files = filter has_rows (partitions df) /\
    Forall (fun f => under root f = true /\ file_schema f = schema df) files.
Proof.
  unfold write_parquet. eexists; split; [reflexivity|]. split.
  - apply written_rows.
  - generalize (length fs).
    induction (filter has_rows (partitions df)) as [|p ps IH]; intros n; simpl.
    + constructor.
    + constructor; [|apply IH]. split; [|reflexivity].
      unfold under, file_path; simpl. apply prefix_slash.
Qed.

Lemma files_rows (P : row -> Prop) (df : DataFrame) (files : list parquet_file) :
  concat (map file_rows files) = rows df ->
  Forall P (rows df) ->
  Forall (fun f => Forall P (file_rows f)) files.
Proof.
  intros Hrows F. rewrite <- Hrows in F.
  apply (proj1 (Forall_concat P (map file_rows files))) in F.
  apply (proj1 (Forall_map file_rows (Forall P) files)) in F. exact F.
Qed.

Lemma append_prefix_injective (p a b : string) :
  String.append p a = String.append p b -> a = b.
Proof. induction p as [|c p IH]; simpl; intros H; [assumption|]. injection H. auto. Qed.

Lemma length_append (a b : string) :
  String.length (String.append a b) = String.length a + String.length b.
Proof. induction a as [|c a IH]; simpl; congruence. Qed.

Lemma append_suffix_injective (s a b : string) :
  String.append a s = String.append b s -> a = b.
Proof.
  revert b; induction a as [|c a IH]; intros [|d b] H; simpl in H.
  - reflexivity.
  - apply (f_equal String.length) in H. simpl in H. rewrite length_append in H. lia.
  - apply (f_equal String.length) in H. simpl in H. rewrite length_append in H. lia.
  - injection H as -> H. f_equal. now apply IH.
Qed.

Lemma image_url_of_injective (a b : string) :
  image_url_of a = image_url_of b -> a = b.
Proof.
  unfold image_url_of. intros H.
  apply append_suffix_injective in H. now apply append_prefix_injective in H.
Qed.

Lemma project_row_keys (cols : list string) (r r' : row) :
  project_row cols r = Ok r' -> map fst r' = cols.
Proof.
  unfold project_row. intros H. apply mapM_res_Forall2 in H.
  induction H as [|c kv cols r' Hc _ IH]; [reflexivity|].
  apply res_bind_Ok in Hc. destruct Hc as (v & _ & Hkv). injection Hkv as <-.
  simpl. now rewrite IH.
Qed.

Section PipelineRows.

Variable download : string -> res (list byte).
Variable decode : list byte -> res tensor.
Variable resample : nat -> nat -> tensor -> list Z.

Local Abbreviation eval_row' := (eval_row download decode resample).
Local Abbreviation holds' := (holds download decode resample).
Local Abbreviation decides' := (decides download decode resample).
Local Abbreviation where' := (where_ download decode resample).
Local Abbreviation with_column' := (with_column download decode resample).
Local Abbreviation fetch_image' := (fetch_image download decode).
Local Abbreviation has_three_channels' := (has_three_channels download decode).
Local Abbreviation selected' := (selected download decode).
Local Abbreviation processable' := (processable download decode).
Local Abbreviation preprocessed_from' := (preprocessed_from download decode resample).
Local Abbreviation prepared' := (prepared download decode resample).

Lemma with_column_rel (c : string) (e : expr) (df df' : DataFrame) :
  udf_free e = true ->
  fst (with_column' c e df) = Ok df' ->
  Forall2 (fun r r' => exists v, eval_row' r e = Ok v /\ r' = set c v r)
          (rows df) (rows df') /\
  length (partitions df') = length (partitions df) /\
  schema df' = extend_schema (schema df) c /\
  resolve (schema df) e = Ok tt.
Proof.
  intros Hfree H. apply with_column_sound in H; [|assumption].
  destruct H as (Hres & Hev & ->). repeat split; try assumption.
  - rewrite rows_map_rows. eapply Forall_Forall2_map; [exact Hev|].
    intros r (v & Hv). exists v. unfold value_of. rewrite Hv. auto.
  - simpl. apply length_map.
Qed.

Lemma where_rel (e : expr) (df df' : DataFrame) :
  udf_free e = true ->
  fst (where' e df) = Ok df' ->
  rows df' = filter (holds' e) (rows df) /\
  Forall (decides' e) (rows df) /\
  length (partitions df') = length (partitions df) /\
  schema df' = schema df /\
  resolve (schema df) e = Ok tt.
Proof.
  intros Hfree H. apply where_sound in H; [|assumption].
  destruct H as (Hres & Hdec & ->). repeat split; try assumption.
  - apply rows_filter_rows.
  - simpl. apply length_map.
Qed.

Lemma udf_rel (c c0 : string) (f : series -> list nat -> res series) (shp : list nat)
      (V : value -> Prop) (df df' : DataFrame) :
  (forall x y, f x shp = Ok y -> Forall V y) ->
  fst (with_column' c (udf f (col c0) shp) df) = Ok df' ->
  Forall2 (fun r r' => exists v, V v /\ r' = set c v r) (rows df) (rows df') /\
  length (partitions df') = length (partitions df).
Proof.
  intros HV H. apply with_column_udf_sound in H. destruct H as (_ & _ & F). split.
  - apply Forall2_concat. eapply Forall2_impl; [|exact F].
    intros p p' (x & y & _ & Hy & Hlen & ->).
    eapply Forall2_impl; [|apply combine_set_rows; exact Hlen].
    intros a b (v & Hv & ->). exists v. split; [|reflexivity].
    specialize (HV x y Hy). rewrite Forall_forall in HV. auto.
  - eapply Forall2_length_eq. exact F.
Qed.

Lemma holds_length_is_1 (r : row) :
  holds' object_length_is_1 r = has_one_object r.
Proof.
  unfold holds, has_one_object, object_length_is_1. simpl.
  destruct (get "object" r) as [[| | | |l|]|]; simpl; try reflexivity.
  destruct l as [|o [|o' l]]; try reflexivity.
  apply Z.eqb_neq. cbn [length]. lia.
Qed.

Lemma decides_length_is_1 (r : row) :
  decides' object_length_is_1 r -> exists l, get "object" r = Some (VList l).
Proof.
  unfold decides, object_length_is_1. simpl. intros (b & H).
  destruct (get "object" r) as [[| | | |l|]|]; simpl in H; try discriminate. eauto.
Qed.

Lemma preprocessed_fetch (r r' : row) :
  preprocessed_from' r r' ->
  exists t h0 w0 ch,
    fetch_image' r = Ok t /\ shape t = [h0; w0; ch] /\
    get "image" r' = Some (VImage t) /\
    get "filename" r' = get "filename" r /\ get "object" r' = get "object" r.
Proof.
  intros (fn & b & t & h0 & w0 & ch & Hfn & Hb & Ht & Hs & ->).
  exists t, h0, w0, ch. unfold fetch_image. rewrite Hfn, Hb. simpl.
  repeat split; try assumption.
  - rewrite !get_set_other by reflexivity. apply get_set_same.
  - now rewrite !get_set_other by reflexivity.
  - now rewrite !get_set_other by reflexivity.
Qed.

Lemma preprocess_rel (df df' : DataFrame) :
  fst (preprocess_images download decode resample df) = Ok df' ->
  Forall2 preprocessed_from' (rows df) (rows df') /\
  length (partitions df') = length (partitions df) /\
  has_column (schema df) "filename" = true.
Proof.
  intros H. unfold preprocess_images in H.
  apply bind_Ok in H. destruct H as (df1 & H1 & H).
  apply bind_Ok in H. destruct H as (df2 & H2 & H).
  apply bind_Ok in H. destruct H as (df3 & H3 & H4).
  apply with_column_rel in H1, H2, H3, H4; try reflexivity.
  destruct H1 as (F1 & N1 & _ & R1), H2 as (F2 & N2 & _), H3 as (F3 & N3 & _),
           H4 as (F4 & N4 & _).
  assert (F12 : Forall2 (fun r r2 =>
                  exists fn b t,
                    get "filename" r = Some (VStr fn) /\
                    download (image_url_of fn) = Ok b /\ decode b = Ok t /\
                    r2 = set "image" (VImage t)
                           (set "image_url" (VStr (image_url_of fn)) r))
                  (rows df) (rows df2)).
  { eapply Forall2_chain; [exact F1 | exact F2 |].
    intros r r1 r2 (v1 & Hv1 & ->) (v2 & Hv2 & ->).
    apply url_row in Hv1. destruct Hv1 as (fn & Hfn & ->).
    apply image_row in Hv2. destruct Hv2 as (url & b & t & Hurl & Hb & Ht & ->).
    rewrite get_set_same in Hurl. injection Hurl as <-.
    exists fn, b, t. auto. }
  assert (F13 : Forall2 (fun r r3 =>
                  exists fn b t h0 w0 ch,
                    get "filename" r = Some (VStr fn) /\
                    download (image_url_of fn) = Ok b /\ decode b = Ok t /\
                    shape t = [h0; w0; ch] /\
                    r3 = set "image_resized_small"
                           (VImage {| shape := [32; 32; ch]; data := resample 32 32 t |})
                           (set "image" (VImage t)
                              (set "image_url" (VStr (image_url_of fn)) r)))
                  (rows df) (rows df3)).
  { eapply Forall2_chain; [exact F12 | exact F3 |].
    intros r r2 r3 (fn & b & t & Hfn & Hb & Ht & ->) (v3 & Hv3 & ->).
    apply resize_row in Hv3. destruct Hv3 as (t' & h0 & w0 & ch & Hi & Hs & ->).
    rewrite get_set_same in Hi. injection Hi as <-.
    exists fn, b, t, h0, w0, ch. auto. }
  split; [|split; [congruence|]].
  - eapply Forall2_chain; [exact F13 | exact F4 |].
    intros r r3 r4 (fn & b & t & h0 & w0 & ch & Hfn & Hb & Ht & Hs & ->) (v4 & Hv4 & ->).
    apply resize_row in Hv4. destruct Hv4 as (t' & h1 & w1 & ch1 & Hi & Hs1 & ->).
    rewrite get_set_other, get_set_same in Hi by reflexivity. injection Hi as <-.
    rewrite Hs in Hs1. injection Hs1 as <- <- <-.
    exists fn, b, t, h0, w0, ch. auto.
  - unfold resolve, resolve_columns in R1. simpl in R1.
    destruct (has_column (schema df) "filename"); [reflexivity | discriminate].
Qed.

(** The table the inference stages consume, in terms of the input. *)
Lemma prepared_rel (t df : DataFrame) :
  fst (prepared' t) = Ok df ->
  Forall2 preprocessed_from' (filter selected' (firstn NUM_ROWS (rows t))) (rows df) /\
  length (partitions df) = 16 /\
  Forall processable' (firstn NUM_ROWS (rows t)) /\
  has_column (schema t) "object" = true /\
  has_column (schema t) "filename" = true.
Proof.
  intros H. unfold prepared in H.
  apply bind_Ok in H. destruct H as (df1 & H1 & H).
  apply bind_Ok in H. destruct H as (df2 & H2 & H).
  apply bind_Ok in H. destruct H as (df3 & H3 & H4).
  unfold prune in H1. apply where_rel in H1; [|reflexivity].
  destruct H1 as (Hrows1 & Hdec & _ & Hsch1 & Hres1). rewrite limit_rows in Hrows1, Hdec.
  apply split_rows in H2. destruct H2 as (Hrows2 & Hsch2 & Hn2).
  apply preprocess_rel in H3. destruct H3 as (F3 & Hn3 & Hfn).
  unfold filter_channels in H4. apply where_rel in H4; [|reflexivity].
  destruct H4 as (Hrows4 & _ & Hn4 & _).
  rewrite Hrows2, Hrows1 in F3.
  assert (Hobj : has_column (schema t) "object" = true).
  { unfold resolve, resolve_columns in Hres1. simpl in Hres1.
    destruct (has_column (schema t) "object"); [reflexivity | discriminate]. }
  repeat split.
  - rewrite Hrows4.
    replace (filter selected' (firstn NUM_ROWS (rows t)))
      with (filter has_three_channels'
              (filter (holds' object_length_is_1) (firstn NUM_ROWS (rows t)))).
    + apply Forall2_filter; [exact F3|].
      intros r r' Hp. apply preprocessed_fetch in Hp.
      destruct Hp as (tt & h0 & w0 & ch & Hf & Hs & Hi & _).
      unfold has_three_channels, holds. rewrite Hf. cbn -[nth_error].
      rewrite Hi. cbn -[nth_error]. rewrite Hs. reflexivity.
    + rewrite filter_filter_andb. apply filter_ext. intros r.
      unfold selected. now rewrite holds_length_is_1.
  - congruence.
  - apply Forall_forall. intros r Hr. split.
    + rewrite Forall_forall in Hdec. apply decides_length_is_1. auto.
    + intros Hone.
      assert (Hin : In r (filter (holds' object_length_is_1) (firstn NUM_ROWS (rows t))))
        by (apply filter_In; split; [assumption | now rewrite holds_length_is_1]).
      assert (G : Forall (fun r => exists r', preprocessed_from' r r')
                    (filter (holds' object_length_is_1) (firstn NUM_ROWS (rows t))))
        by (eapply Forall2_Forall_l; [exact F3 | intros a b Hab; eauto]).
      rewrite Forall_forall in G. destruct (G r Hin) as (r' & Hp).
      apply preprocessed_fetch in Hp. destruct Hp as (tt & h0 & w0 & ch & Hf & Hs & _).
      exists tt, h0, w0, ch. auto.
  - exact Hobj.
  - rewrite Hsch2, Hsch1 in Hfn. exact Hfn.
Qed.

End PipelineRows.

Section WrittenRows.

Variable download : string -> res (list byte).
Variable decode : list byte -> res tensor.
Variable resample : nat -> nat -> tensor -> list Z.
Variable classify : series -> list nat -> res series.

Local Abbreviation eval_row' := (eval_row download decode resample).
Local Abbreviation holds' := (holds download decode resample).
Local Abbreviation decides' := (decides download decode resample).
Local Abbreviation where' := (where_ download decode resample).
Local Abbreviation with_column' := (with_column download decode resample).
Local Abbreviation fetch_image' := (fetch_image download decode).
Local Abbreviation selected' := (selected download decode).
Local Abbreviation processable' := (processable download decode).
Local Abbreviation preprocessed_from' := (preprocessed_from download decode resample).
Local Abbreviation prune' := (prune download decode resample).
Local Abbreviation prepared' := (prepared download decode resample).
Local Abbreviation infer' := (infer download decode resample classify).
Local Abbreviation intermediate' := (intermediate download decode resample classify).
Local Abbreviation results' := (results download decode resample classify).
Local Abbreviation run' := (run download decode resample classify).

Lemma infer_rel (df df' : DataFrame) :
  fst (infer' df) = Ok df' ->
  Forall2 (fun r r' => exists v v',
             r' = set "predictions_highres" v' (set "predictions_lowres" v r))
          (rows df) (rows df') /\
  length (partitions df') = length (partitions df).
Proof.
  intros H. unfold infer in H. apply bind_Ok in H. destruct H as (df1 & H1 & H2).
  apply (udf_rel download decode resample _ _ _ _ (fun _ => True)) in H1, H2;
    try (intros x y _; apply Forall_forall; auto).
  destruct H1 as [F1 N1], H2 as [F2 N2]. split; [|congruence].
  eapply Forall2_chain; [exact F1 | exact F2 |].
  intros r r1 r2 (v & _ & ->) (v' & _ & ->). eauto.
Qed.

(** The table handed to the sink, in terms of the input. *)
Lemma results_rel (t df : DataFrame) :
  fst (results' t) = Ok df ->
  Forall2 (same_source) (filter selected' (firstn NUM_ROWS (rows t))) (rows df) /\
  length (partitions df) = 16 /\
  Forall processable' (firstn NUM_ROWS (rows t)) /\
  has_column (schema t) "object" = true /\
  has_column (schema t) "filename" = true.
Proof.
  intros H. unfold results in H. apply bind_Ok in H. destruct H as (df2 & H2 & H3).
  unfold intermediate in H2. apply bind_Ok in H2. destruct H2 as (df1 & H1 & H2).
  apply prepared_rel in H1. destruct H1 as (F1 & N1 & Hproc & Hobj & Hfn).
  apply infer_rel in H2. destruct H2 as (F2 & N2).
  pose proof (@select_partitions projection df2 df H3) as N3.
  apply select_sound in H3. destruct H3 as (_ & F3).
  repeat split; try assumption; [|congruence].
  eapply Forall2_chain; [| exact F3 |].
  - eapply Forall2_chain; [exact F1 | exact F2 |].
    intros r r1 r2 Hp (v & v' & ->).
    apply preprocessed_fetch in Hp. destruct Hp as (_ & _ & _ & _ & _ & _ & _ & Hf & Ho).
    instantiate (1 := same_source). split; now rewrite !get_set_other by reflexivity.
  - intros r r2 r3 [Hf Ho] Hp. unfold same_source.
    rewrite <- Hf, <- Ho.
    split; apply (@project_row_get projection r2 r3 _ Hp); simpl; auto.
Qed.

Lemma run_files (t : DataFrame) (fs : filesystem) (paths : list string) (fs' : filesystem) :
  fst (run' t fs) = Ok (paths, fs') ->
  exists df files,
    fst (results' t) = Ok df /\
    fs' = fs ++ files /\ map path files = paths /\
    concat (map file_rows files) = rows df /\
    Forall (fun f => under results_path f = true /\ file_schema f = schema df) files /\
    map file_rows files = filter has_rows (partitions df).
Proof.
  intros H. unfold run in H. apply bind_Ok in H. destruct H as (df & Hdf & H).
  destruct (written_files_exact results_path df fs) as (files & Hw & Hrows & Hunder).
  simpl in H. rewrite Hw in H. injection H as <- <-.
  exists df, files. repeat split; try assumption.
  rewrite Hrows. apply concat_has_rows.
Qed.

(** The table handed to the sink has the projected schema and rows of
    exactly the projected columns. *)
Lemma results_columns (t df : DataFrame) :
  fst (results' t) = Ok df ->
  schema df = projection /\ Forall (fun r => map fst r = projection) (rows df).
Proof.
  intros H. unfold results in H. apply bind_Ok in H. destruct H as (df2 & _ & H3).
  apply select_sound in H3. destruct H3 as (Hsch & F3). split; [exact Hsch|].
  eapply Forall2_Forall_r; [exact F3|].
  intros r r' Hp. now apply project_row_keys in Hp.
Qed.

(** C7. Every file the sink writes carries exactly the projected schema
    filename, image_url, object, predictions_lowres,
    predictions_highres, in that order, and every row in it has exactly
    these five columns, in that order.  The files hold as many rows as
    the input has selected rows among its first NUM_ROWS, so that a file
    is written whenever a row is selected. *)
Theorem written_schema_is_projection (t : DataFrame) (fs : filesystem)
        (paths : list string) (fs' : filesystem) :
  fst (run' t fs) = Ok (paths, fs') ->
  exists files,
    fs' = fs ++ files /\ map path files = paths /\
    Forall (fun f => file_schema f =
                     ["filename"; "image_url"; "object";
                      "predictions_lowres"; "predictions_highres"] /\
                     Forall (fun r => map fst r =
                                      ["filename"; "image_url"; "object";
                                       "predictions_lowres"; "predictions_highres"])
                            (file_rows f)) files /\
    length (concat (map file_rows files)) =
      length (filter selected' (firstn NUM_ROWS (rows t))) /\
    (filter selected' (firstn NUM_ROWS (rows t)) <> [] -> files <> []).
Proof.
  intros H. apply run_files in H.
  destruct H as (df & files & Hdf & Hfs & Hpaths & Hrows & Hfiles & _).
  destruct (results_columns t df Hdf) as (Hsch & Hkeys).
  apply results_rel in Hdf. destruct Hdf as (F & _).
  assert (Hlen : length (concat (map file_rows files)) =
                 length (filter selected' (firstn NUM_ROWS (rows t))))
    by (rewrite Hrows; apply (Forall2_length_eq F)).
  exists files. split; [exact Hfs|]. split; [exact Hpaths|]. split; [|split].
  - pose proof (files_rows _ df files Hrows Hkeys) as Hr.
    rewrite Forall_forall in Hfiles, Hr. apply Forall_forall. intros f Hf. split.
    + destruct (Hfiles f Hf) as [_ E]. rewrite E. exact Hsch.
    + exact (Hr f Hf).
  - exact Hlen.
  - intros Hsel E. subst files.
    apply Hsel. apply length_zero_iff_nil. rewrite <- Hlen. reflexivity.
Qed.

(** X4. What a completed job writes: exactly the rows, among the first
    NUM_ROWS of the input, that list one object and whose image decodes
    with 3 channels; each once, in input order, with its filename and
    object unchanged.  In particular never more than NUM_ROWS rows nor
    more than the input holds. *)
Theorem written_rows_are_the_selected_rows
        (t : DataFrame) (fs : filesystem) (paths : list string) (fs' : filesystem) :
  fst (run' t fs) = Ok (paths, fs') ->
  exists files,
    fs' = fs ++ files /\ map path files = paths /\
    Forall2 (fun r r' => get "filename" r' = get "filename" r /\
                         get "object" r' = get "object" r)
            (filter selected' (firstn NUM_ROWS (rows t)))
            (concat (map file_rows files)) /\
    length (concat (map file_rows files)) <= Nat.min NUM_ROWS (count_rows t).
Proof.
  intros H. apply run_files in H.
  destruct H as (df & files & Hdf & Hfs & Hpaths & Hrows & _).
  apply results_rel in Hdf. destruct Hdf as (F & _).
  exists files. rewrite Hrows. repeat split; try assumption.
  rewrite (Forall2_length_eq F).
  etransitivity; [apply filter_length_le|].
  rewrite length_firstn. reflexivity.
Qed.


Lemma run_needs_results (t : DataFrame) (fs : filesystem) :
  (forall df, fst (results' t) = Ok df -> False) ->
  exists e, fst (run' t fs) = Err e.
Proof.
  intros H. destruct (fst (run' t fs)) as [[paths fs']|e'] eqn:E; [|eauto].
  apply run_files in E. destruct E as (df & _ & Hdf & _). destruct (H df Hdf).
Qed.

(** X6. No row is skipped on failure: if, among the first NUM_ROWS rows,
    some row with exactly one object has a filename whose image cannot be
    fetched, or is fetched and cannot be decoded, the whole job fails and
    no path is returned. *)
Theorem bad_row_fails_the_job
        (t : DataFrame) (fs : filesystem) (r : row) (fn : string) (e0 : error) :
  In r (firstn NUM_ROWS (rows t)) ->
  has_one_object r = true ->
  get "filename" r = Some (VStr fn) ->
  res_bind (download (image_url_of fn)) decode = Err e0 ->
  exists e, fst (run' t fs) = Err e.
Proof.
  intros Hin Hone Hfn Hbad. apply run_needs_results.
  intros df Hdf. apply results_rel in Hdf. destruct Hdf as (_ & _ & Hproc & _).
  rewrite Forall_forall in Hproc. destruct (Hproc r Hin) as [_ Hfetch].
  destruct (Hfetch Hone) as (tt & _ & _ & _ & Hok & _).
  unfold fetch_image in Hok. rewrite Hfn in Hok. congruence.
Qed.

(** X7. The job needs the input columns it reads: without a filename
    column or without an object column in the input schema it fails,
    whatever the rows are. *)
Theorem missing_input_column_fails_the_job (t : DataFrame) (fs : filesystem) :
  has_column (schema t) "filename" = false \/ has_column (schema t) "object" = false ->
  exists e, fst (run' t fs) = Err e.
Proof.
  intros Hmiss. apply run_needs_results.
  intros df Hdf. apply results_rel in Hdf. destruct Hdf as (_ & _ & _ & Hobj & Hfn).
  destruct Hmiss; congruence.
Qed.


End WrittenRows.

(** X9. The derived URL determines the file: two rows get the same
    image_url only if they have the same filename. *)
Theorem image_url_determines_filename
        (download : string -> res (list byte)) (decode : list byte -> res tensor)
        (resample : nat -> nat -> tensor -> list Z) (r1 r2 : row) (v : value) :
  eval_row download decode resample r1 image_url_expr = Ok v ->
  eval_row download decode resample r2 image_url_expr = Ok v ->
  get "filename" r1 = get "filename" r2.
Proof.
  intros H1 H2. apply url_row in H1, H2.
  destruct H1 as (fn1 & Hf1 & ->), H2 as (fn2 & Hf2 & E).
  apply (f_equal (fun u => match u with VStr s => s | _ => EmptyString end)) in E.
  apply image_url_of_injective in E. congruence.
Qed.

(* ================================================================== *)
(** ** The job with [ClassifyImage] *)

Lemma Forall_Forall2_diag (A : Type) (R : A -> A -> Prop) (l : list A) :
  Forall (fun a => R a a) l -> Forall2 R l l.
Proof. induction 1; constructor; auto. Qed.

Lemma Forall_exists_Forall2 (A B : Type) (R : A -> B -> Prop) (l : list A) :
  Forall (fun a => exists b, R a b) l -> exists l', Forall2 R l l'.
Proof.
  induction 1 as [|a l (b & Hb) _ (l' & IH)].
  - exists []. constructor.
  - exists (b :: l'). constructor; assumption.
Qed.

Section TrackedTotality.

Variable download : string -> res (list byte).
Variable decode : list byte -> res tensor.
Variable resample : nat -> nat -> tensor -> list Z.

Local Abbreviation eval_row' := (eval_row download decode resample).
Local Abbreviation holds' := (holds download decode resample).
Local Abbreviation decides' := (decides download decode resample).
Local Abbreviation where' := (where_ download decode resample).
Local Abbreviation with_column' := (with_column download decode resample).

Lemma tracks_rows (rs0 : list row) (cols : list string) (E : row -> Prop) (n : nat)
      (df : DataFrame) :
  tracks rs0 cols E n df ->
  Forall (fun r => carried cols r r /\ E r) (rows df).
Proof.
  intros (F & _). eapply Forall2_Forall_r; [exact F|].
  intros a r [[_ Hc] HE]. repeat split; assumption.
Qed.

Lemma tracks_weaken (rs0 : list row) (cols : list string) (E E' : row -> Prop) (n : nat)
      (df : DataFrame) :
  (forall r, E r -> E' r) -> tracks rs0 cols E n df -> tracks rs0 cols E' n df.
Proof.
  intros HE (F & Hn & Hs). repeat split; try assumption.
  eapply Forall2_impl; [|exact F]. intros a r [Hc He]. auto.
Qed.

(** A filter that may drop rows: the table is tracked from its own rows
    afterwards. *)
Lemma where_total_drop (e : expr) (cin : string)
      (rs0 : list row) (cols : list string) (E : row -> Prop) (n : nat) (df : DataFrame) :
  udf_free e = true -> columns_of e = [cin] -> In cin cols ->
  tracks rs0 cols E n df ->
  (forall r, carried cols r r -> E r -> decides' e r) ->
  exists df',
    fst (where' e df) = Ok df' /\
    tracks (rows df') cols (fun r => E r /\ holds' e r = true) n df'.
Proof.
  intros Hfree Hcols Hin T Hdec. pose proof (tracks_rows _ _ _ _ _ T) as F.
  destruct T as (_ & Hn & Hsch).
  exists (filter_rows (holds' e) df). rewrite where_exact.
  - split; [reflexivity|]. repeat split.
    + apply Forall_Forall2_diag. rewrite rows_filter_rows.
      rewrite Forall_forall in *. intros r Hr. apply filter_In in Hr.
      destruct Hr as [Hr Hh]. destruct (F r Hr) as [Hc HE]. auto.
    + simpl. now rewrite length_map.
    + exact Hsch.
  - assumption.
  - eapply resolve_single; [exact Hcols | eapply tracked_column; eauto].
  - eapply Forall_impl; [|exact F]. intros r [Hc HE]. auto.
Qed.

Lemma column_values (c0 : string) (V : value -> Prop) (p : partition) :
  Forall (fun r => exists u, get c0 r = Some u /\ V u) p ->
  exists x, column c0 p = Ok x /\ length x = length p /\ Forall V x.
Proof.
  intros F. apply mapM_res_total.
  eapply Forall_impl; [|exact F]. intros r (u & Hu & HV). rewrite Hu. simpl. eauto.
Qed.

(** A batched derivation whose transform answers every batch of values
    satisfying [V] with one value per row. *)
Lemma udf_total_any (c c0 : string) (f : series -> list nat -> res series)
      (shp : list nat) (V : value -> Prop)
      (rs0 : list row) (cols : list string) (E E' : row -> Prop) (n : nat)
      (df : DataFrame) :
  (forall x, Forall V x -> exists y, f x shp = Ok y /\ length y = length x) ->
  In c0 cols -> String.eqb c "filename" = false ->
  tracks rs0 cols E n df ->
  (forall r, E r -> exists u, get c0 r = Some u /\ V u) ->
  (forall r v, E r -> E' (set c v r)) ->
  exists df', fst (with_column' c (udf f (col c0) shp) df) = Ok df' /\
              tracks rs0 (c :: cols) E' n df'.
Proof.
  intros Hf Hin Hc T HV Hstep. pose proof (tracks_rows _ _ _ _ _ T) as F.
  destruct T as (F0 & Hn & Hsch).
  assert (G : Forall (fun p => exists p',
                 fst (bind (eval download decode resample p (udf f (col c0) shp))
                        (fun s => ret (map (fun rv => set c (snd rv) (fst rv))
                                           (combine p s)))) = Ok p' /\
                 Forall2 (fun r r' => exists v, r' = set c v r) p p')
                (partitions df)).
  { apply Forall_concat in F. eapply Forall_impl; [|exact F]. intros p Hp.
    destruct (column_values c0 V p) as (x & Hx & Hlen & HVx).
    { eapply Forall_impl; [|exact Hp]. intros r [_ HE]. auto. }
    destruct (Hf x HVx) as (y & Hy & Hleny).
    exists (map (fun rv => set c (snd rv) (fst rv)) (combine p y)). split.
    - apply udf_partition. exists x, y. repeat split; auto. congruence.
    - eapply Forall2_impl; [|apply combine_set_rows; congruence].
      intros a b (v & _ & ->). eauto. }
  apply Forall_exists_Forall2 in G. destruct G as (ps & G).
  exists {| schema := extend_schema (schema df) c; partitions := ps |}. split.
  - unfold with_column. apply bind_Ok. exists tt. split.
    + simpl. unfold resolve, resolve_columns. simpl.
      now rewrite (tracked_column (schema df) cols c0 Hsch Hin).
    + apply bind_Ok. exists ps. split; [|reflexivity].
      apply mapM_Forall2. eapply Forall2_impl; [|exact G]. now intros p p' [H _].
  - repeat split.
    + unfold rows. cbn [partitions]. fold (rows df) in F0.
      eapply Forall2_chain; [exact F0 | |].
      * apply Forall2_concat. eapply Forall2_impl; [|exact G].
        intros p p' [_ H]. exact H.
      * intros a r r' [Hcar HE] (v & ->). split; [now apply carried_set | auto].
    + simpl. rewrite <- Hn. eapply Forall2_length_eq. exact G.
    + simpl. now apply extend_tracked.
Qed.

End TrackedTotality.

Section JobCompletes.

Variable download : string -> res (list byte).
Variable decode : list byte -> res tensor.
Variable resample : nat -> nat -> tensor -> list Z.
Variable classify : series -> list nat -> res series.

Hypothesis classify_total :
  forall x h w, forallb (is_tensor_of [h; w; 3]) x = true ->
                exists y, classify x [h; w; 3] = Ok y /\ length y = length x.

Local Abbreviation eval_row' := (eval_row download decode resample).
Local Abbreviation holds' := (holds download decode resample).
Local Abbreviation fetch_image' := (fetch_image download decode).
Local Abbreviation processable' := (processable download decode).
Local Abbreviation has_resized' := (has_resized resample).

Lemma fetch_image_inv (r : row) (t : tensor) :
  fetch_image' r = Ok t ->
  exists fn b, get "filename" r = Some (VStr fn) /\
               download (image_url_of fn) = Ok b /\ decode b = Ok t.
Proof.
  unfold fetch_image. destruct (get "filename" r) as [[fn| | | | |]|]; try discriminate.
  intros H. apply res_bind_Ok in H. destruct H as (b & Hb & Ht). eauto.
Qed.

Lemma resized_tensor (c : string) (w h : nat) (r : row) :
  has_resized' c w h r -> three_channels r -> holds_tensor c [h; w; 3] r.
Proof.
  intros (t & h0 & w0 & ch & Ht & Hs & Hr) (t' & Ht' & Hc).
  rewrite Ht in Ht'. injection Ht' as <-. rewrite Hs in Hc. simpl in Hc.
  injection Hc as ->. eexists; split; [exact Hr | reflexivity].
Qed.

Lemma tensor_value (c : string) (shp : list nat) (r : row) :
  holds_tensor c shp r ->
  exists u, get c r = Some u /\ is_tensor_of shp u = true.
Proof.
  intros (t & Ht & Hs). exists (VImage t). split; [assumption|].
  simpl. now apply shape_eqb_eq.
Qed.

Lemma prepared_total_any (t : DataFrame) :
  has_column (schema t) "filename" = true ->
  has_column (schema t) "object" = true ->
  Forall processable' (firstn NUM_ROWS (rows t)) ->
  exists df,
    fst (prepared download decode resample t) = Ok df /\
    tracks (rows df)
           ["image_resized_large"; "image_resized_small"; "image"; "image_url";
            "filename"; "object"]
           (fun r => holds_tensor "image_resized_small" [32; 32; 3] r /\
                     holds_tensor "image_resized_large" [256; 256; 3] r) 16 df.
Proof.
  intros Hfn Hobj F.
  set (df1 := filter_rows (holds' object_length_is_1) (limit NUM_ROWS t)).
  assert (H1 : fst (prune download decode resample t) = Ok df1).
  { unfold prune. rewrite where_exact; [reflexivity | reflexivity | |].
    - apply length_is_1_resolves. exact Hobj.
    - rewrite limit_rows. eapply Forall_impl; [|exact F].
      intros r [(l & Hl) _]. eexists. apply length_is_1_row. exact Hl. }
  assert (Hrows1 : rows df1 = filter (holds' object_length_is_1) (firstn NUM_ROWS (rows t)))
    by (unfold df1; now rewrite rows_filter_rows, limit_rows).
  set (df2 := {| schema := schema df1; partitions := split_even 16 (rows df1) |}).
  destruct (@split_rows df1 df2 eq_refl) as (Hrows2 & Hsch2 & Hn2).
  assert (T2 : tracks (rows df2) ["filename"; "object"]
                 (fun r => exists fn b t h w c,
                      get "filename" r = Some (VStr fn) /\
                      download (image_url_of fn) = Ok b /\ decode b = Ok t /\
                      shape t = [h; w; c]) 16 df2).
  { split; [|split].
    - apply Forall_Forall2_diag. rewrite Hrows2, Hrows1.
      apply Forall_forall. intros r Hr. apply filter_In in Hr. destruct Hr as [Hr Hone].
      rewrite holds_length_is_1 in Hone.
      rewrite Forall_forall in F. destruct (F r Hr) as [(l & Hl) Hfetch].
      destruct (Hfetch Hone) as (tt & h & w & c & Hf & Hs).
      destruct (fetch_image_inv r tt Hf) as (fn & b & Hfn' & Hb & Ht).
      split.
      + split; [reflexivity|]. repeat constructor; unfold present; eauto.
      + exists fn, b, tt, h, w, c. auto.
    - exact Hn2.
    - rewrite Hsch2. simpl. now rewrite Hfn, Hobj. }
  assert (S3 : exists df3,
             fst (with_column download decode resample
                    "image_url" image_url_expr df2) = Ok df3 /\
             tracks (rows df2) ["image_url"; "filename"; "object"]
                    (fun r => exists fn b t h w c,
                         get "image_url" r = Some (VStr (image_url_of fn)) /\
                         download (image_url_of fn) = Ok b /\ decode b = Ok t /\
                         shape t = [h; w; c]) 16 df3).
  { eapply with_column_total with (cin := "filename");
      [reflexivity | reflexivity | simpl; auto | reflexivity | exact T2 |].
    intros a r _ (fn & b & tt & h & w & c & Hr & Hb & Ht & Hs).
    exists (VStr (image_url_of fn)). split.
    - apply url_row. eauto.
    - rewrite get_set_same. exists fn, b, tt, h, w, c. auto. }
  destruct S3 as (df3 & H3 & T3).
  assert (S4 : exists df4,
             fst (with_column download decode resample "image"
                    (image_decode (url_download (col "image_url"))) df3) = Ok df4 /\
             tracks (rows df2) ["image"; "image_url"; "filename"; "object"]
                    (fun r => exists t h w c,
                         get "image" r = Some (VImage t) /\ shape t = [h; w; c]) 16 df4).
  { eapply with_column_total with (cin := "image_url");
      [reflexivity | reflexivity | simpl; auto | reflexivity | exact T3 |].
    intros a r _ (fn & b & tt & h & w & c & Hu & Hb & Ht & Hs).
    exists (VImage tt). split.
    - apply image_row. exists (image_url_of fn), b, tt. auto.
    - rewrite get_set_same. exists tt, h, w, c. auto. }
  destruct S4 as (df4 & H4 & T4).
  assert (S5 : exists df5,
             fst (with_column download decode resample "image_resized_small"
                    (image_resize 32 32 (col "image")) df4) = Ok df5 /\
             tracks (rows df2)
                    ["image_resized_small"; "image"; "image_url"; "filename"; "object"]
                    (has_resized' "image_resized_small" 32 32) 16 df5).
  { eapply with_column_total with (cin := "image");
      [reflexivity | reflexivity | simpl; auto | reflexivity | exact T4 |].
    intros a r _ (tt & h & w & c & Hi & Hs). eexists. split.
    - apply resize_row. exists tt, h, w, c. auto.
    - exists tt, h, w, c. rewrite get_set_same, get_set_other by reflexivity. auto. }
  destruct S5 as (df5 & H5 & T5).
  assert (S6 : exists df6,
             fst (with_column download decode resample "image_resized_large"
                    (image_resize 256 256 (col "image")) df5) = Ok df6 /\
             tracks (rows df2)
                    ["image_resized_large"; "image_resized_small"; "image";
                     "image_url"; "filename"; "object"]
                    (fun r => has_resized' "image_resized_small" 32 32 r /\
                              has_resized' "image_resized_large" 256 256 r) 16 df6).
  { eapply with_column_total with (cin := "image");
      [reflexivity | reflexivity | simpl; auto | reflexivity | exact T5 |].
    intros a r _ (tt & h & w & c & Hi & Hs & Hsm). eexists. split.
    - apply resize_row. exists tt, h, w, c. auto.
    - split; exists tt, h, w, c;
        rewrite ?get_set_same, ?get_set_other by reflexivity; auto. }
  destruct S6 as (df6 & H6 & T6).
  assert (S7 : exists df7,
             fst (where_ download decode resample
                    (apply channels_is_3 (col "image")) df6) = Ok df7 /\
             tracks (rows df7)
                    ["image_resized_large"; "image_resized_small"; "image";
                     "image_url"; "filename"; "object"]
                    (fun r => (has_resized' "image_resized_small" 32 32 r /\
                               has_resized' "image_resized_large" 256 256 r) /\
                              holds' (apply channels_is_3 (col "image")) r = true)
                    16 df7).
  { eapply where_total_drop with (cin := "image");
      [reflexivity | reflexivity | simpl; auto | exact T6 |].
    intros r _ [(tt & h & w & c & Hi & Hs & _) _].
    exists (Nat.eqb c 3). cbn -[nth_error]. rewrite Hi. cbn -[nth_error].
    rewrite Hs. reflexivity. }
  destruct S7 as (df7 & H7 & T7).
  exists df7. split.
  - unfold prepared. apply bind_Ok. exists df1; split; [exact H1|].
    apply bind_Ok. exists df2; split; [reflexivity|].
    apply bind_Ok. exists df6; split; [|exact H7].
    unfold preprocess_images. apply bind_Ok. exists df3; split; [exact H3|].
    apply bind_Ok. exists df4; split; [exact H4|].
    apply bind_Ok. exists df5; split; [exact H5 | exact H6].
  - eapply tracks_weaken; [|exact T7].
    intros r [[Hsm Hla] Hc]. apply channels_row in Hc.
    split; apply resized_tensor; assumption.
Qed.

Lemma results_total_any (t : DataFrame) :
  has_column (schema t) "filename" = true ->
  has_column (schema t) "object" = true ->
  Forall processable' (firstn NUM_ROWS (rows t)) ->
  exists df, fst (results download decode resample classify t) = Ok df.
Proof.
  intros Hfn Hobj F.
  destruct (prepared_total_any t Hfn Hobj F) as (df1 & H1 & T1).
  assert (S2 : exists df2,
             fst (with_column download decode resample "predictions_lowres"
                    (udf classify (col "image_resized_small") [32; 32; 3]) df1) = Ok df2 /\
             tracks (rows df1)
                    ["predictions_lowres";
                     "image_resized_large"; "image_resized_small"; "image";
                     "image_url"; "filename"; "object"]
                    (holds_tensor "image_resized_large" [256; 256; 3]) 16 df2).
  { eapply udf_total_any with (V := fun v => is_tensor_of [32; 32; 3] v = true);
      [| simpl; auto | reflexivity | exact T1 | |].
    - intros x Hx. apply classify_total. apply forallb_forall.
      rewrite Forall_forall in Hx. exact Hx.
    - intros r [Hsm _]. now apply tensor_value.
    - intros r v [_ (tt & Ht & Hs)]. exists tt.
      now rewrite get_set_other by reflexivity. }
  destruct S2 as (df2 & H2 & T2).
  assert (S3 : exists df3,
             fst (with_column download decode resample "predictions_highres"
                    (udf classify (col "image_resized_large") [256; 256; 3]) df2) = Ok df3 /\
             tracks (rows df1)
                    ["predictions_highres"; "predictions_lowres";
                     "image_resized_large"; "image_resized_small"; "image";
                     "image_url"; "filename"; "object"]
                    (fun _ => True) 16 df3).
  { eapply udf_total_any with (V := fun v => is_tensor_of [256; 256; 3] v = true);
      [| simpl; auto | reflexivity | exact T2 | |].
    - intros x Hx. apply classify_total. apply forallb_forall.
      rewrite Forall_forall in Hx. exact Hx.
    - intros r Hla. now apply tensor_value.
    - auto. }
  destruct S3 as (df3 & H3 & T3).
  assert (Hincl : incl projection
                    ["predictions_highres"; "predictions_lowres";
                     "image_resized_large"; "image_resized_small"; "image";
                     "image_url"; "filename"; "object"]).
  { unfold projection. intros c Hc. simpl in Hc |- *.
    repeat (destruct Hc as [<-|Hc]; [tauto|]). contradiction. }
  destruct (select_tracked Hincl T3) as (df4 & H4 & _).
  exists df4. unfold results. apply bind_Ok. exists df3; split; [|exact H4].
  unfold intermediate. apply bind_Ok. exists df1; split; [exact H1|].
  unfold infer. apply bind_Ok. exists df2; split; assumption.
Qed.

End JobCompletes.

Section RealNotebook.

Variable download : string -> res (list byte).
Variable decode : list byte -> res tensor.
Variable resample : nat -> nat -> tensor -> list Z.

Variable score : Type.
Variable score_ltb : score -> score -> bool.
Variable ftensor : Type.
Variable softmax0 : list (list score) -> list (list score).
Variable resnet50 : ClassifyImage.Weights ftensor -> ftensor -> list (list score).
Variable weights : ClassifyImage.Weights ftensor.

Local Abbreviation classify_image' :=
  (classify_image score_ltb softmax0 resnet50 weights).
Local Abbreviation categories := (ClassifyImage.meta_categories weights).
Local Abbreviation run' :=
  (run download decode resample classify_image').

Lemma classify_image_labels (x : series) (shp : list nat) (y : series) :
  classify_image' x shp = Ok y -> Forall (label_of categories) y.
Proof.
  unfold classify_image, daft_udf_string. intros H.
  apply res_bind_Ok in H. destruct H as (labels & Hl & Hy). injection Hy as <-.
  apply call_labels_in_category_map in Hl. simpl in Hl.
  apply Forall_map. eapply Forall_impl; [|exact Hl].
  intros l Hin. exists l. auto.
Qed.

Lemma classify_image_total :
  categories <> [] ->
  (forall x n c h w, shape x = [n; c; h; w] ->
     ClassifyImage.well_shaped n (length categories)
       (softmax0 (resnet50 weights (ClassifyImage.transforms weights x))) = true) ->
  forall x h w, forallb (is_tensor_of [h; w; 3]) x = true ->
                exists y, classify_image' x [h; w; 3] = Ok y /\ length y = length x.
Proof.
  intros Hcat Hnet x h w Hx. unfold classify_image, daft_udf_string.
  destruct (call_total score score_ltb ftensor softmax0
              (ClassifyImage.__init__ resnet50 weights) x h w 3 Hx Hcat)
    as (labels & Hl & Hlen).
  - intros x' n Hs. apply (Hnet x' n 3 h w Hs).
  - rewrite Hl. simpl. eexists; split; [reflexivity|]. now rewrite length_map.
Qed.

Lemma real_run_total (t : DataFrame) (fs : filesystem) :
  has_column (schema t) "filename" = true ->
  has_column (schema t) "object" = true ->
  Forall (processable download decode) (firstn NUM_ROWS (rows t)) ->
  categories <> [] ->
  (forall x n c h w, shape x = [n; c; h; w] ->
     ClassifyImage.well_shaped n (length categories)
       (softmax0 (resnet50 weights (ClassifyImage.transforms weights x))) = true) ->
  exists paths fs', fst (run' t fs) = Ok (paths, fs').
Proof.
  intros Hfn Hobj F Hcat Hnet.
  destruct (results_total_any download decode resample classify_image'
              (classify_image_total Hcat Hnet) t Hfn Hobj F) as (df & Hdf).
  exists (fst (write_parquet results_path df fs)), (snd (write_parquet results_path df fs)).
  unfold run. apply bind_Ok. exists df. split; [exact Hdf|].
  unfold ret. cbn [fst]. now destruct (write_parquet results_path df fs).
Qed.

(** X10. With [ClassifyImage] as the batched transform, every prediction
    written, low and high resolution, is an entry of the category map of
    the weights, whatever the network computes. *)
Theorem written_predictions_are_categories
        (t : DataFrame) (fs : filesystem) (paths : list string) (fs' : filesystem) :
  fst (run' t fs) = Ok (paths, fs') ->
  exists files,
    fs' = fs ++ files /\ map path files = paths /\
    Forall (fun f =>
              Forall (fun r => exists lo hi,
                        get "predictions_lowres" r = Some (VStr lo) /\ In lo categories /\
                        get "predictions_highres" r = Some (VStr hi) /\ In hi categories)
                     (file_rows f)) files.
Proof.
  intros H. apply run_files in H.
  destruct H as (df & files & Hdf & Hfs & Hpaths & Hrows & _).
  exists files. repeat split; try assumption.
  apply (files_rows _ df files Hrows).
  unfold results in Hdf. apply bind_Ok in Hdf. destruct Hdf as (df2 & H2 & H3).
  unfold intermediate in H2. apply bind_Ok in H2. destruct H2 as (df0 & _ & H2).
  unfold infer in H2. apply bind_Ok in H2. destruct H2 as (df1 & H1 & H2).
  apply (udf_rel download decode resample _ _ _ _ (label_of categories)) in H1, H2;
    try (intros x y; apply classify_image_labels).
  destruct H1 as [F1 _], H2 as [F2 _].
  apply select_sound in H3. destruct H3 as [_ F3].
  assert (G1 : Forall (fun r => exists lo,
                         get "predictions_lowres" r = Some (VStr lo) /\ In lo categories)
                      (rows df1)).
  { eapply Forall2_Forall_r; [exact F1|].
    intros r r' (v & (lo & -> & Hlo) & ->). exists lo. rewrite get_set_same. auto. }
  assert (G2 : Forall (fun r => exists lo hi,
                         get "predictions_lowres" r = Some (VStr lo) /\ In lo categories /\
                         get "predictions_highres" r = Some (VStr hi) /\ In hi categories)
                      (rows df2)).
  { eapply Forall2_Forall_transfer; [exact F2 | exact G1 |].
    intros r r' (lo & Hlo & Hin) (v & (hi & -> & Hhi) & ->). exists lo, hi.
    rewrite get_set_same, get_set_other by reflexivity. auto. }
  eapply Forall2_Forall_transfer; [exact F3 | exact G2 |].
  intros r r' (lo & hi & Hlo & Hilo & Hhi & Hihi) Hp. exists lo, hi.
  rewrite (@project_row_get projection r r' "predictions_lowres" Hp) by (simpl; tauto).
  rewrite (@project_row_get projection r r' "predictions_highres" Hp) by (simpl; tauto).
  auto.
Qed.

(** X11. The notebook's job completes whenever the input declares the
    filename and object columns, every one of its first NUM_ROWS rows has
    a list of objects and, if that list has one entry, an image that
    fetches and decodes to height x width x channels, the category map is
    not empty, and the network returns one row of scores per image with
    one score per category: no stage raises, [ClassifyImage] included,
    also on the empty partitions. *)
Theorem notebook_job_completes (t : DataFrame) (fs : filesystem) :
  has_column (schema t) "filename" = true ->
  has_column (schema t) "object" = true ->
  Forall (processable download decode) (firstn NUM_ROWS (rows t)) ->
  categories <> [] ->
  (forall x n c h w, shape x = [n; c; h; w] ->
     ClassifyImage.well_shaped n (length categories)
       (softmax0 (resnet50 weights (ClassifyImage.transforms weights x))) = true) ->
  exists paths fs', fst (run' t fs) = Ok (paths, fs').
Proof. apply real_run_total. Qed.

End RealNotebook.

(* ================================================================== *)
(** ** The further properties on concrete inputs *)

Lemma Zltb_transitive (a b c : Z) : Z.ltb a b = true -> Z.ltb b c = true -> Z.ltb a c = true.
Proof. rewrite !Z.ltb_lt. lia. Qed.

Lemma labels_are_top_scoring_witness :
  exists data x,
    mapM_res (ClassifyImage.cast_uint8_tensor [1; 2; 3]) Demo.batch = Ok data /\
    ClassifyImage.permute_0_3_1_2 (ClassifyImage.np_array [1; 2; 3] data) = Ok x /\
    Forall2 (fun row label =>
               exists j best,
                 nth_error (ClassifyImage.category_map Demo.net) j = Some label /\
                 nth_error row j = Some best /\
                 Forall (fun s => Z.ltb best s = false) row)
            (Demo.softmax0 (ClassifyImage.model Demo.net (ClassifyImage.preprocess Demo.net x)))
            ["goldfish"; "goldfish"; "great white shark"].
Proof.
  apply (labels_are_top_scoring Z Z.ltb tensor Demo.softmax0 Demo.net Demo.batch [1; 2; 3]
           ["goldfish"; "goldfish"; "great white shark"]).
  - exact Z.ltb_irrefl.
  - exact Zltb_transitive.
  - discriminate.
  - vm_compute. reflexivity.
Defined.

Lemma single_image_gets_first_category_witness :
  ClassifyImage.__call__ Z.ltb Demo2.softmax0
    (ClassifyImage.__init__ Demo2.resnet50 Demo2.weights)
    [VImage {| shape := [1; 2; 3]; data := [1; 2; 3; 4; 5; 6]%Z |}] [1; 2; 3]
  = Ok ["tench"].
Proof.
  apply (single_image_gets_first_category Z Z.ltb tensor Demo2.softmax0
           (ClassifyImage.__init__ Demo2.resnet50 Demo2.weights)
           (VImage {| shape := [1; 2; 3]; data := [1; 2; 3; 4; 5; 6]%Z |}) 1 2 3
           "tench" ["goldfish"; "great white shark"; "tiger shark"]).
  - exact Z.ltb_irrefl.
  - intros row. exists 1%Z. reflexivity.
  - vm_compute. reflexivity.
  - reflexivity.
  - intros x Hx. simpl. unfold Demo2.resnet50. rewrite Hx. reflexivity.
Defined.


Lemma call_rejects_mismatched_image_witness :
  exists e,
    ClassifyImage.__call__ Z.ltb Demo.softmax0 Demo.net
      [VImage (Demo.pixels 4 4 3); VImage (Demo.pixels 4 4 1)] [4; 4; 3] = Err e /\
    (e = ValueError \/ e = TypeError).
Proof.
  apply (call_rejects_mismatched_image Z Z.ltb tensor Demo.softmax0 Demo.net
           [VImage (Demo.pixels 4 4 3); VImage (Demo.pixels 4 4 1)] [4; 4; 3]
           (VImage (Demo.pixels 4 4 1))).
  - simpl. tauto.
  - vm_compute. reflexivity.
Defined.

Lemma written_rows_are_the_selected_rows_witness :
  exists files,
    snd Demo.written = [] ++ files /\ map path files = fst Demo.written /\
    Forall2 (fun r r' => get "filename" r' = get "filename" r /\
                         get "object" r' = get "object" r)
            (filter (selected Demo.download_by_name Demo.decode_by_size)
                    (firstn NUM_ROWS (rows Demo.table_crowded)))
            (concat (map file_rows files)) /\
    length (concat (map file_rows files)) <= Nat.min NUM_ROWS (count_rows Demo.table_crowded).
Proof.
  apply (written_rows_are_the_selected_rows Demo.download_by_name Demo.decode_by_size
           Demo.resample_stub stub_classifier Demo.table_crowded []
           (fst Demo.written) (snd Demo.written)).
  vm_compute. reflexivity.
Defined.


Lemma bad_row_fails_the_job_witness :
  exists e,
    fst (run Demo2.download_without_b Demo.decode_by_size Demo.resample_stub
           stub_classifier Demo.table_abc []) = Err e.
Proof.
  apply (bad_row_fails_the_job Demo2.download_without_b Demo.decode_by_size
           Demo.resample_stub stub_classifier Demo.table_abc []
           (Demo.input "b" [Demo.one_object]) "b" (IOError (image_url_of "b"))).
  - vm_compute. tauto.
  - reflexivity.
  - reflexivity.
  - vm_compute. reflexivity.
Defined.

Lemma missing_input_column_fails_the_job_witness :
  exists e,
    fst (run Demo.download_by_name Demo.decode_by_size Demo.resample_stub
           stub_classifier Demo3.table_no_object []) = Err e.
Proof.
  apply (missing_input_column_fails_the_job Demo.download_by_name Demo.decode_by_size
           Demo.resample_stub stub_classifier Demo3.table_no_object []).
  right. reflexivity.
Defined.

Lemma image_url_determines_filename_witness :
  get "filename" (Demo.input "a" [Demo.one_object]) = get "filename" [("filename", VStr "a")].
Proof.
  apply (image_url_determines_filename Demo.download_stub Demo.decode_by_size
           Demo.resample_stub (Demo.input "a" [Demo.one_object]) [("filename", VStr "a")]
           (VStr (image_url_of "a"))).
  - vm_compute. reflexivity.
  - vm_compute. reflexivity.
Defined.

(** The demonstration network returns one row of four scores per image. *)
Lemma demo2_network_contract (x : tensor) (n c h w : nat) :
  shape x = [n; c; h; w] ->
  ClassifyImage.well_shaped n (length (ClassifyImage.meta_categories Demo2.weights))
    (Demo2.softmax0
       (Demo2.resnet50 Demo2.weights (ClassifyImage.transforms Demo2.weights x))) = true.
Proof.
  intros Hx. unfold Demo2.resnet50. cbn [ClassifyImage.transforms Demo2.weights].
  rewrite Hx. cbn [hd].
  assert (G : forall l : list nat,
             ClassifyImage.well_shaped (length l) 4
               (map (fun i => [1; 5; Z.of_nat i * 4; 2]%Z) l) = true).
  { intros l. unfold ClassifyImage.well_shaped.
    rewrite length_map, Nat.eqb_refl. cbn [andb].
    apply forallb_forall. intros row Hrow. apply in_map_iff in Hrow.
    destruct Hrow as (i & <- & _). reflexivity. }
  specialize (G (seq 0 n)). rewrite length_seq in G.
  destruct n as [|[|n]]; exact G.
Qed.

Lemma demo_rows_processable :
  Forall (processable Demo.download_by_name Demo.decode_by_size)
         (firstn NUM_ROWS (rows Demo.table_abc)).
Proof.
  assert (E : firstn NUM_ROWS (rows Demo.table_abc)
              = [Demo.input "a" [Demo.one_object]; Demo.input "b" [Demo.one_object];
                 Demo.input "c" [Demo.one_object]]) by (vm_compute; reflexivity).
  rewrite E.
  repeat (apply Forall_cons;
          [split; [eexists; reflexivity
                  | intros _; do 4 eexists; split; vm_compute; reflexivity]|]).
  apply Forall_nil.
Qed.

Lemma written_predictions_are_categories_witness :
  exists paths fs' files,
    fst (run Demo.download_by_name Demo.decode_by_size Demo.resample_stub
           (classify_image Z.ltb Demo2.softmax0 Demo2.resnet50 Demo2.weights)
           Demo.table_abc []) = Ok (paths, fs') /\
    fs' = [] ++ files /\ map path files = paths /\
    Forall (fun f =>
              Forall (fun r => exists lo hi,
                        get "predictions_lowres" r = Some (VStr lo) /\
                        In lo (ClassifyImage.meta_categories Demo2.weights) /\
                        get "predictions_highres" r = Some (VStr hi) /\
                        In hi (ClassifyImage.meta_categories Demo2.weights))
                     (file_rows f)) files.
Proof.
  destruct (real_run_total Demo.download_by_name Demo.decode_by_size Demo.resample_stub
              Z Z.ltb tensor Demo2.softmax0 Demo2.resnet50 Demo2.weights Demo.table_abc [])
    as (paths & fs' & H).
  - reflexivity.
  - reflexivity.
  - exact demo_rows_processable.
  - discriminate.
  - exact demo2_network_contract.
  - exists paths, fs'.
    destruct (written_predictions_are_categories Demo.download_by_name Demo.decode_by_size
                Demo.resample_stub Z Z.ltb tensor Demo2.softmax0 Demo2.resnet50 Demo2.weights
                Demo.table_abc [] paths fs' H) as (files & Hfs & Hpaths & Hrows).
    exists files. auto.
Defined.

Lemma notebook_job_completes_witness :
  exists paths fs',
    fst (run Demo.download_by_name Demo.decode_by_size Demo.resample_stub
           (classify_image Z.ltb Demo2.softmax0 Demo2.resnet50 Demo2.weights)
           Demo.table_abc []) = Ok (paths, fs').
Proof.
  apply (notebook_job_completes Demo.download_by_name Demo.decode_by_size Demo.resample_stub
           Z Z.ltb tensor Demo2.softmax0 Demo2.resnet50 Demo2.weights Demo.table_abc []).
  - reflexivity.
  - reflexivity.
  - exact demo_rows_processable.
  - discriminate.
  - exact demo2_network_contract.
Defined.


(** No row of [Demo3.table_none] is selected: the job completes, writes
    no file, and there is nothing to read back. *)
Lemma read_back_of_nothing_selected :
  fst (run Demo.download_by_name Demo.decode_by_size Demo.resample_stub
         stub_classifier Demo3.table_none []) = Ok ([], []) /\
  fst (run_and_read Demo.download_by_name Demo.decode_by_size Demo.resample_stub
         stub_classifier Demo3.table_none [])
  = Err (FileNotFoundError results_path).
Proof. split; vm_compute; reflexivity. Qed.

Lemma written_schema_is_projection_witness :
  exists files,
    snd Demo.written = [] ++ files /\ map path files = fst Demo.written /\
    Forall (fun f => file_schema f =
                     ["filename"; "image_url"; "object";
                      "predictions_lowres"; "predictions_highres"] /\
                     Forall (fun r => map fst r =
                                      ["filename"; "image_url"; "object";
                                       "predictions_lowres"; "predictions_highres"])
                            (file_rows f)) files /\
    length (concat (map file_rows files)) = 1 /\
    files <> [].
Proof.
  destruct (written_schema_is_projection Demo.download_by_name Demo.decode_by_size
              Demo.resample_stub stub_classifier Demo.table_crowded []
              (fst Demo.written) (snd Demo.written))
    as (files & Hfs & Hpaths & Hschema & Hlen & Hsome).
  - vm_compute. reflexivity.
  - exists files. split; [exact Hfs|]. split; [exact Hpaths|]. split; [exact Hschema|].
    split; [exact Hlen|]. apply Hsome. vm_compute. discriminate.
Defined.
